(** * Telephus connection pool: [telephus/protocol.py]

    A shallow embedding of the managed Thrift client protocol
    ([ManagedThriftClientProtocol], [AuthenticatedThriftClientProtocol]) and
    of the reconnecting client factory that is the pool
    ([ManagedCassandraClientFactory]), with the results that the
    specification states about them.

    The Python objects live in an explicit store: protocol objects and the
    callers' Deferreds are addressed by identifiers, the factory's attributes
    are fields of the state.  Code that can raise runs in a
    state-and-exception monad in which, as in Python, the mutations made
    before a [raise] persist.

    What the module takes from Twisted and Thrift is modelled as those
    libraries document it:
    - a Deferred fires once, a second [callback] or [errback] raises
      [AlreadyCalledError]; callbacks run in the order they were added, an
      errback is handed a Failure that wraps the exception, and what a
      callback raises becomes the result of its Deferred and goes no further;
    - [DeferredQueue.put] calls back the first waiting [get] if there is
      one and appends to the pending objects otherwise; [get] pops the first
      pending object if there is one and waits otherwise;
    - a remote operation of the Thrift client returns a Deferred that has
      not fired; it fires when the input [Finished] says so.

    The remote side and the reactor are the environment: they are the
    [input]s of [step].  The answers to the calls of one handshake come with
    the input [Connected], since between two calls of a handshake the
    handshake reads and writes nothing of the pool. *)

From Stdlib Require Import Ascii String DecimalString DecimalNat.
From stdpp Require Import gmap strings list.

Local Open Scope Z_scope.
Local Open Scope string_scope.

(** ** Exceptions, values and Failures *)

(** The exception instances that travel through this module.  The first
    three are the classes declared at the top of [protocol.py];
    [InvalidRequestException] comes from [telephus.cassandra.ttypes],
    [TTransportException] from Thrift, [UserError] from Twisted,
    [AlreadyCalledError] from Twisted's Deferred, and [ValueError] and
    [AttributeError] are Python's own.  [OtherException] stands for any other
    application exception a remote call may answer with. *)
Inductive exn : Type :=
  | ClientBusy
  | InvalidThriftRequest
  | APIMismatch (remote ours : string)
  | InvalidRequestException (why : string)
  | TTransportException
  | UserError (msg : string)
  | AlreadyCalledError
  | ValueError
  | AttributeError
  | OtherException (name : string).

#[global] Instance exn_eq_dec : EqDecision exn.
Proof. solve_decision. Defined.

(** The classes [isinstance] is asked about. *)
Inductive pyclass : Type :=
  | ClsClientBusy | ClsInvalidThriftRequest | ClsAPIMismatch
  | ClsInvalidRequestException | ClsTTransportException | ClsUserError
  | ClsAlreadyCalledError | ClsValueError | ClsAttributeError | ClsOther
  | ClsFailure.

#[global] Instance pyclass_eq_dec : EqDecision pyclass.
Proof. solve_decision. Defined.

Definition class_of_exn (e : exn) : pyclass :=
  match e with
  | ClientBusy => ClsClientBusy
  | InvalidThriftRequest => ClsInvalidThriftRequest
  | APIMismatch _ _ => ClsAPIMismatch
  | InvalidRequestException _ => ClsInvalidRequestException
  | TTransportException => ClsTTransportException
  | UserError _ => ClsUserError
  | AlreadyCalledError => ClsAlreadyCalledError
  | ValueError => ClsValueError
  | AttributeError => ClsAttributeError
  | OtherException _ => ClsOther
  end.

(** What an errback may be handed: an exception instance, or a
    [twisted.python.failure.Failure] that wraps one.  A Failure is not an
    instance of any exception class of this module. *)
Inductive pyobj : Type :=
  | PExn (e : exn)
  | PFailure (value : exn).

Definition class_of (o : pyobj) : pyclass :=
  match o with
  | PExn e => class_of_exn e
  | PFailure _ => ClsFailure
  end.

(** [isinstance(o, cls)]; none of the classes above derives from another. *)
Definition isinstance (o : pyobj) (cls : pyclass) : bool :=
  bool_decide (class_of o = cls).

(** The wrapped exception ([Failure.value]). *)
Definition failure_value (o : pyobj) : exn :=
  match o with PExn e | PFailure e => e end.

(** [Deferred.errback(fail)] wraps whatever is not a Failure yet. *)
Definition as_failure (o : pyobj) : pyobj := PFailure (failure_value o).

(** Results of remote calls. *)
Inductive value : Type :=
  | VNone
  | VBool (b : bool)
  | VStr (s : string)
  | VDict (d : list (string * string)).

#[global] Instance value_eq_dec : EqDecision value.
Proof. solve_decision. Defined.

(** The result a Deferred carries once it has fired: a value, or a Failure
    around the exception. *)
Inductive outcome : Type :=
  | Succ (v : value)
  | Fail (e : exn).

#[global] Instance outcome_eq_dec : EqDecision outcome.
Proof. solve_decision. Defined.

(** The outcome of running Python code: a returned value or a raised
    exception. *)
Inductive res (A : Type) : Type :=
  | Ok (a : A)
  | Raise (e : exn).
Arguments Ok {A} a.
Arguments Raise {A} e.

(** ** [match_thrift_version] *)

Module Version.

(** [s.split(sep)] for a one-character separator: every occurrence cuts,
    empty pieces are kept, the empty string gives one empty piece. *)
Fixpoint split (sep : ascii) (s : string) : list string :=
  match s with
  | EmptyString => [EmptyString]
  | String c rest =>
      if bool_decide (c = sep) then EmptyString :: split sep rest
      else match split sep rest with
           | [] => [String c EmptyString]
           | w :: ws => String c w :: ws
           end
  end.

(** The characters [int] strips from both ends. *)
Definition is_space (c : ascii) : bool :=
  let n := nat_of_ascii c in
  bool_decide (n = 32%nat) || (bool_decide (9 ≤ n)%nat && bool_decide (n ≤ 13)%nat).

Fixpoint lstrip (s : string) : string :=
  match s with
  | String c rest => if is_space c then lstrip rest else s
  | EmptyString => EmptyString
  end.

Fixpoint rstrip (s : string) : string :=
  match s with
  | EmptyString => EmptyString
  | String c rest =>
      match rstrip rest with
      | EmptyString => if is_space c then EmptyString else String c EmptyString
      | r => String c r
      end
  end.

Definition strip (s : string) : string := rstrip (lstrip s).

Definition digit_value (c : ascii) : option Z :=
  let n := nat_of_ascii c in
  if bool_decide (48 ≤ n)%nat && bool_decide (n ≤ 57)%nat
  then Some (Z.of_nat n - 48) else None.

(** Most significant digit first, accumulator on the left. *)
Fixpoint digits (acc : Z) (s : string) : option Z :=
  match s with
  | EmptyString => Some acc
  | String c rest =>
      match digit_value c with
      | Some d => digits (10 * acc + d) rest
      | None => None
      end
  end.

Definition unsigned_literal (s : string) : res Z :=
  match s with
  | EmptyString => Raise ValueError
  | _ => match digits 0 s with
         | Some n => Ok n
         | None => Raise ValueError
         end
  end.

(** [int(s)] on a string, for decimal literals: surrounding white space is
    dropped, one sign is accepted, the rest must be a non-empty run of
    decimal digits; anything else raises [ValueError]. *)
Definition py_int (s : string) : res Z :=
  match strip s with
  | String "+" rest => unsigned_literal rest
  | String "-" rest =>
      match unsigned_literal rest with
      | Ok n => Ok (- n)
      | Raise e => Raise e
      end
  | t => unsigned_literal t
  end.

(** [map(int, l)]: the first element that fails raises. *)
Fixpoint map_int (l : list string) : res (list Z) :=
  match l with
  | [] => Ok []
  | s :: rest =>
      match py_int s with
      | Raise e => Raise e
      | Ok n => match map_int rest with
                | Raise e => Raise e
                | Ok ns => Ok (n :: ns)
                end
      end
  end.

(** [a, b, c = map(int, v.split('.'))]: unpacking anything but three
    elements raises [ValueError]. *)
Definition triple (v : string) : res (Z * Z * Z) :=
  match map_int (split "." v) with
  | Raise e => Raise e
  | Ok [a; b; c] => Ok (a, b, c)
  | Ok _ => Raise ValueError
  end.

(** [match_thrift_version(ourversion, remoteversion)]; the remote string
    is taken apart first. *)
Definition match_thrift_version (ourversion remoteversion : string) : res bool :=
  match triple remoteversion with
  | Raise e => Raise e
  | Ok (r_major, r_minor, r_patch) =>
      match triple ourversion with
      | Raise e => Raise e
      | Ok (o_major, o_minor, o_patch) =>
          Ok (bool_decide (r_major = o_major) && bool_decide (r_minor >= o_minor))
      end
  end.

(** A version string written from its three components. *)
Definition decimal (n : nat) : string := NilEmpty.string_of_uint (Nat.to_uint n).

Definition version_string (major minor patch : nat) : string :=
  decimal major ++ "." ++ decimal minor ++ "." ++ decimal patch.

(** Strings made of decimal digits only. *)
Fixpoint all_digits (s : string) : bool :=
  match s with
  | EmptyString => true
  | String c rest => bool_decide (is_Some (digit_value c)) && all_digits rest
  end.

End Version.

(** ** The object store and the factory's attributes *)

(** [ManagedThriftRequest]. *)
Record request : Type := ManagedThriftRequest {
  method : string;
  args : list value;
}.

#[global] Instance request_eq_dec : EqDecision request.
Proof. solve_decision. Defined.

(** A work item of the queue: [(request, deferred, retries)]; the Deferred
    is the caller's, named by its identifier. *)
Definition item : Type := request * nat * Z.

(** The Deferred of a remote call in flight.  Its first callback is always
    [addBoth(self._complete)]; [call_pool_args] holds the arguments of the
    pair [reqSuccess]/[reqError] when [_process] has added it after that. *)
Record call : Type := Call {
  call_request : request;
  call_pool_args : option item;
}.

(** Which class the protocol object is an instance of. *)
Inductive proto_class : Type :=
  | Managed
  | Authenticated (credentials : list (string * string)).

(** A protocol object.  [p_transport] is [None] while there is no
    transport, [Some true] while the transport is connected and [Some false]
    once [loseConnection] has been called on it or the connection is gone. *)
Record proto : Type := Proto {
  p_class : proto_class;
  p_deferred : option call;
  p_aborted : bool;
  p_keyspace : option string;
  p_check_api_version : bool;
  p_transport : option bool;
}.

(** The factory's own Deferred ([self.deferred]): still held, or fired and
    replaced by [None]. *)
Inductive readiness : Type :=
  | Unfired
  | FiredWith (o : outcome).

(** What an observer of the pool sees happen, oldest first. *)
Inductive event : Type :=
  | EvCall (p : nat) (method : string) (args : list value)
      (** a remote operation is invoked on the client of [p] *)
  | EvAttempt (p : nat) (d : nat)
      (** [_process] submits the request of the caller's Deferred [d] to [p] *)
  | EvFired (d : nat) (o : outcome)
      (** the caller's Deferred [d] fires with [o] *).

#[global] Instance event_eq_dec : EqDecision event.
Proof. solve_decision. Defined.

Record state : Type := State {
  protos : gmap nat proto;          (** the protocol objects, by identity *)
  next_proto : nat;
  handles : gmap nat outcome;       (** the callers' Deferreds that have fired *)
  next_handle : nat;
  f_deferred : readiness;
  queue_pending : list item;        (** [self.queue.pending] *)
  queue_waiting : list nat;         (** [self.queue.waiting]: each waiter is
                                        [_process] closed over a protocol *)
  continueTrying : bool;
  _protos : list nat;
  _pending : list nat;
  request_retries : Z;
  f_keyspace : option string;
  f_credentials : list (string * string);
  f_check_api_version : bool;
  trace : list event;
}.

Definition set_protos (f : gmap nat proto → gmap nat proto) (s : state) : state :=
  State (f (protos s)) (next_proto s) (handles s) (next_handle s) (f_deferred s)
        (queue_pending s) (queue_waiting s) (continueTrying s) (_protos s) (_pending s)
        (request_retries s) (f_keyspace s) (f_credentials s) (f_check_api_version s) (trace s).

Definition set_next_proto (n : nat) (s : state) : state :=
  State (protos s) n (handles s) (next_handle s) (f_deferred s)
        (queue_pending s) (queue_waiting s) (continueTrying s) (_protos s) (_pending s)
        (request_retries s) (f_keyspace s) (f_credentials s) (f_check_api_version s) (trace s).

Definition set_handles (f : gmap nat outcome → gmap nat outcome) (s : state) : state :=
  State (protos s) (next_proto s) (f (handles s)) (next_handle s) (f_deferred s)
        (queue_pending s) (queue_waiting s) (continueTrying s) (_protos s) (_pending s)
        (request_retries s) (f_keyspace s) (f_credentials s) (f_check_api_version s) (trace s).

Definition set_next_handle (n : nat) (s : state) : state :=
  State (protos s) (next_proto s) (handles s) n (f_deferred s)
        (queue_pending s) (queue_waiting s) (continueTrying s) (_protos s) (_pending s)
        (request_retries s) (f_keyspace s) (f_credentials s) (f_check_api_version s) (trace s).

Definition set_f_deferred (r : readiness) (s : state) : state :=
  State (protos s) (next_proto s) (handles s) (next_handle s) r
        (queue_pending s) (queue_waiting s) (continueTrying s) (_protos s) (_pending s)
        (request_retries s) (f_keyspace s) (f_credentials s) (f_check_api_version s) (trace s).

Definition set_queue_pending (l : list item) (s : state) : state :=
  State (protos s) (next_proto s) (handles s) (next_handle s) (f_deferred s)
        l (queue_waiting s) (continueTrying s) (_protos s) (_pending s)
        (request_retries s) (f_keyspace s) (f_credentials s) (f_check_api_version s) (trace s).

Definition set_queue_waiting (l : list nat) (s : state) : state :=
  State (protos s) (next_proto s) (handles s) (next_handle s) (f_deferred s)
        (queue_pending s) l (continueTrying s) (_protos s) (_pending s)
        (request_retries s) (f_keyspace s) (f_credentials s) (f_check_api_version s) (trace s).

Definition set_continueTrying (b : bool) (s : state) : state :=
  State (protos s) (next_proto s) (handles s) (next_handle s) (f_deferred s)
        (queue_pending s) (queue_waiting s) b (_protos s) (_pending s)
        (request_retries s) (f_keyspace s) (f_credentials s) (f_check_api_version s) (trace s).

Definition set__protos (l : list nat) (s : state) : state :=
  State (protos s) (next_proto s) (handles s) (next_handle s) (f_deferred s)
        (queue_pending s) (queue_waiting s) (continueTrying s) l (_pending s)
        (request_retries s) (f_keyspace s) (f_credentials s) (f_check_api_version s) (trace s).

Definition set__pending (l : list nat) (s : state) : state :=
  State (protos s) (next_proto s) (handles s) (next_handle s) (f_deferred s)
        (queue_pending s) (queue_waiting s) (continueTrying s) (_protos s) l
        (request_retries s) (f_keyspace s) (f_credentials s) (f_check_api_version s) (trace s).

Definition set_f_keyspace (k : option string) (s : state) : state :=
  State (protos s) (next_proto s) (handles s) (next_handle s) (f_deferred s)
        (queue_pending s) (queue_waiting s) (continueTrying s) (_protos s) (_pending s)
        (request_retries s) k (f_credentials s) (f_check_api_version s) (trace s).

Definition log (e : event) (s : state) : state :=
  State (protos s) (next_proto s) (handles s) (next_handle s) (f_deferred s)
        (queue_pending s) (queue_waiting s) (continueTrying s) (_protos s) (_pending s)
        (request_retries s) (f_keyspace s) (f_credentials s) (f_check_api_version s)
        (trace s ++ [e]).

(** A protocol object as it is first constructed; also what an identifier
    that names no object reads as. *)
Definition blank_proto : proto := Proto Managed None false None false None.

Definition proto_at (s : state) (p : nat) : proto := default blank_proto (protos s !! p).

Definition update_proto (p : nat) (f : proto → proto) (s : state) : state :=
  set_protos (λ m, <[p := f (proto_at s p)]> m) s.

Definition with_deferred (d : option call) (o : proto) : proto :=
  Proto (p_class o) d (p_aborted o) (p_keyspace o) (p_check_api_version o) (p_transport o).

Definition with_aborted (b : bool) (o : proto) : proto :=
  Proto (p_class o) (p_deferred o) b (p_keyspace o) (p_check_api_version o) (p_transport o).

Definition with_transport (t : option bool) (o : proto) : proto :=
  Proto (p_class o) (p_deferred o) (p_aborted o) (p_keyspace o) (p_check_api_version o) t.

(** ** The monad of code that may raise *)

Definition M (A : Type) : Type := state → res A * state.

Definition ret {A} (a : A) : M A := λ s, (Ok a, s).

Definition bind {A B} (c : M A) (k : A → M B) : M B :=
  λ s, match c s with
       | (Ok a, s') => k a s'
       | (Raise e, s') => (Raise e, s')
       end.

Definition raise {A} (e : exn) : M A := λ s, (Raise e, s).

(** [try: c  except Exception: h]; every exception of [exn] is an
    [Exception]. *)
Definition try_except {A} (c : M A) (h : exn → M A) : M A :=
  λ s, match c s with
       | (Ok a, s') => (Ok a, s')
       | (Raise e, s') => h e s'
       end.

(** Code that cannot raise, run inside the monad. *)
Definition lift (f : state → state) : M unit := λ s, (Ok (), f s).

(** A callback run by a Deferred: what it returns or raises becomes the
    Deferred's result and goes no further; the state it leaves stays. *)
Definition run_callback {A} (c : M A) : state → state := λ s, snd (c s).

Notation "'let*' x ':=' c 'in' k" := (bind c (λ x, k))
  (at level 10, x binder, c at level 100, k at level 200).
Notation "c ';;' k" := (bind c (λ _, k))
  (at level 100, k at level 200, right associativity).

(** ** The protocol and the factory *)

Section Pool.

(** [getattr(self.client, name, None)] is truthy: the generated
    [Cassandra.Client] has a remote operation of that name. *)
Variable client_has : string → bool.

(** [constants.VERSION] of [telephus.cassandra]. *)
Variable VERSION : string.

(** *** Deferreds of callers, lists *)

(** [d.callback(v)] and [d.errback(f)] on a caller's Deferred: firing a
    Deferred that has fired raises [AlreadyCalledError] and changes
    nothing. *)
Definition fire (d : nat) (o : outcome) : M unit :=
  λ s, match handles s !! d with
       | Some _ => (Raise AlreadyCalledError, s)
       | None => (Ok (), log (EvFired d o) (set_handles (λ m, <[d := o]> m) s))
       end.

Definition callback (d : nat) (v : value) : M unit := fire d (Succ v).

Definition errback (d : nat) (err : pyobj) : M unit :=
  fire d (Fail (failure_value (as_failure err))).

(** [d.called]. *)
Definition called (s : state) (d : nat) : bool := bool_decide (is_Some (handles s !! d)).

(** [l.remove(x)]: the first occurrence goes; [ValueError] when there is
    none. *)
Fixpoint list_remove (x : nat) (l : list nat) : res (list nat) :=
  match l with
  | [] => Raise ValueError
  | y :: rest =>
      if bool_decide (y = x) then Ok rest
      else match list_remove x rest with
           | Ok rest' => Ok (y :: rest')
           | Raise e => Raise e
           end
  end.

(** [self._pending.remove(d)]. *)
Definition pending_remove (d : nat) : M unit :=
  λ s, match list_remove d (_pending s) with
       | Ok l => (Ok (), set__pending l s)
       | Raise e => (Raise e, s)
       end.

(** *** [ManagedThriftClientProtocol] *)

(** [self.transport.loseConnection()]. *)
Definition loseConnection (p : nat) : M unit :=
  λ s, match p_transport (proto_at s p) with
       | None => (Raise AttributeError, s)
       | Some _ => (Ok (), update_proto p (with_transport (Some false)) s)
       end.

(** [ManagedThriftClientProtocol.submitRequest] (the factory has a
    [submitRequest] of its own, below): the Deferred it returns is the one
    it has stored in [self.deferred], with [_complete] as its first
    callback. *)
Definition proto_submitRequest (p : nat) (request : request) : M unit :=
  λ s, match p_deferred (proto_at s p) with
       | None =>
           if client_has (method request)
           then (Ok (), update_proto p (with_deferred (Some (Call request None)))
                          (log (EvCall p (method request) (args request)) s))
           else (Raise InvalidThriftRequest, s)
       | Some _ => (Raise ClientBusy, s)
       end.

(** [ManagedThriftClientProtocol.abort]. *)
Definition abort (p : nat) : M unit :=
  lift (update_proto p (with_aborted true)) ;;
  loseConnection p.

(** *** [ManagedCassandraClientFactory] *)

Definition _errback (reason : exn) (s : state) : state :=
  match f_deferred s with
  | Unfired => set_f_deferred (FiredWith (Fail reason)) s
  | FiredWith _ => s
  end.

Definition _callback (v : value) (s : state) : state :=
  match f_deferred s with
  | Unfired => set_f_deferred (FiredWith (Succ v)) s
  | FiredWith _ => s
  end.

Definition clientSetupFailed (reason : exn) (s : state) : state := _errback reason s.

(** [clientConnectionFailed]; the reconnection that the parent class
    schedules belongs to the reactor. *)
Definition clientConnectionFailed (reason : exn) (s : state) : state := _errback reason s.

Definition clientGone (proto : nat) (s : state) : state :=
  match list_remove proto (_protos s) with
  | Ok l => set__protos l s
  | Raise _ => s
  end.

(** The closures of [submitRequest].  [put] is [self.queue.put]. *)
Definition reqError (put : item → state → state)
    (err : pyobj) (req : request) (d : nat) (r : Z) : M unit :=
  if isinstance err ClsInvalidRequestException
     || isinstance err ClsInvalidThriftRequest
     || bool_decide (r < 1)
  then errback d err ;; pending_remove d
  else lift (put (req, d, r)).

Definition reqSuccess (res : value) (d : nat) : M unit :=
  callback d res ;; pending_remove d.

(** [d.addCallbacks(reqSuccess, reqError, callbackArgs=[deferred],
    errbackArgs=[request, deferred, retries])] on the Deferred that
    [proto.submitRequest] has returned and stored. *)
Definition add_pool_callbacks (p : nat) (it : item) (s : state) : state :=
  update_proto p (λ o, match p_deferred o with
                       | Some c => with_deferred (Some (Call (call_request c) (Some it))) o
                       | None => o
                       end) s.

Definition _process (put : item → state → state) (proto : nat) (it : item) : M unit :=
  let '(request, deferred, retries) := it in
  λ s,
    if negb (bool_decide (proto ∈ _protos s))
    then lift (put (request, deferred, retries)) s
    else
      (let* d := try_except
                   (lift (log (EvAttempt proto deferred)) ;;
                    proto_submitRequest proto request ;;
                    ret None)
                   (λ e, abort proto ;; ret (Some (PFailure e))) in
       let retries := retries - 1 in
       match d with
       | None => lift (add_pool_callbacks proto (request, deferred, retries))
       | Some failure =>
           (* [defer.fail()] has fired: [addCallbacks] runs the errback now *)
           lift (run_callback (reqError put failure request deferred retries))
       end) s.

(** [DeferredQueue.put] with the waiters [waiting]: the first waiter is
    popped and called back with the object, and its callback is
    [_process]; without a waiter the object joins [pending]. *)
Fixpoint put_from (waiting : list nat) (obj : item) (s : state) : state :=
  match waiting with
  | [] => set_queue_pending (queue_pending s ++ [obj]) s
  | proto :: rest =>
      run_callback (_process (put_from rest) proto obj) (set_queue_waiting rest s)
  end.

Definition put (obj : item) (s : state) : state := put_from (queue_waiting s) obj s.

(** [submitRequest(proto)]: [self.queue.get().addCallback(_process)]. *)
Definition submitRequest (proto : nat) (s : state) : state :=
  match queue_pending s with
  | obj :: rest => run_callback (_process put proto obj) (set_queue_pending rest s)
  | [] => set_queue_waiting (queue_waiting s ++ [proto]) s
  end.

Definition clientIdle (proto : nat) (result : value) (s : state) : state :=
  let s := if bool_decide (proto ∈ _protos s) then s
           else set__protos (_protos s ++ [proto]) s in
  let s := submitRequest proto s in
  _callback result s.

(** [retries or self.request_retries]. *)
Definition or_default (retries : option Z) (default : Z) : Z :=
  match retries with
  | Some n => if bool_decide (n = 0) then default else n
  | None => default
  end.

Definition pushRequest (request : request) (retries : option Z) (s : state) : nat * state :=
  let retries := or_default retries (request_retries s) in
  let d := next_handle s in
  let s := set_next_handle (S d) s in
  let s := set__pending (_pending s ++ [d]) s in
  (d, put (request, d, retries) s).

(** [for x in l: body(x)]. *)
Fixpoint for_each {A} (l : list A) (body : A → M unit) : M unit :=
  match l with
  | [] => ret ()
  | x :: rest => body x ;; for_each rest body
  end.

(** [stopTrying()] of [ReconnectingClientFactory], as far as the factory's
    attributes go. *)
Definition stopTrying : M unit := lift (set_continueTrying false).

Definition shutdown : M unit :=
  stopTrying ;;
  (λ s, for_each (_protos s)
          (λ p s, if bool_decide (is_Some (p_transport (proto_at s p)))
                  then loseConnection p s
                  else ret () s) s) ;;
  (λ s, for_each (_pending s)
          (λ d s, if negb (called s d)
                  then errback d (PExn (UserError "Shutdown requested")) s
                  else ret () s) s).

Definition set_keyspace (keyspace : string) : M unit :=
  lift (set_f_keyspace (Some keyspace)) ;;
  (λ s, for_each (_protos s)
          (λ p, proto_submitRequest p (ManagedThriftRequest "set_keyspace" [VStr keyspace])) s).

Definition login (credentials : list (string * string)) : M unit :=
  λ s, for_each (_protos s)
         (λ p, proto_submitRequest p (ManagedThriftRequest "login" [VDict credentials])) s.

(** *** Completion of a remote call *)

(** [ManagedThriftClientProtocol._complete]: [clientIdle(self)] has
    [result=True]. *)
Definition _complete (p : nat) (res : outcome) : M outcome :=
  lift (update_proto p (with_deferred None)) ;;
  lift (clientIdle p (VBool true)) ;;
  ret res.

(** The Deferred [c] of a remote call of [p] fires with [o]: its
    callbacks run in the order they were added, [_complete] first; an
    exception raised by one is the Failure the next one is handed. *)
Definition fire_call (p : nat) (c : call) (o : outcome) (s : state) : state :=
  let '(r, s) := _complete p o s in
  let o := match r with Ok o' => o' | Raise e => Fail e end in
  match call_pool_args c with
  | None => s
  | Some (req, d, retries) =>
      match o with
      | Succ v => run_callback (reqSuccess v d) s
      | Fail e => run_callback (reqError put (PFailure e) req d retries) s
      end
  end.

(** The remote call in flight on [p], if there is one, finishes. *)
Definition call_finished (p : nat) (o : outcome) (s : state) : state :=
  match p_deferred (proto_at s p) with
  | Some c => fire_call p c o s
  | None => s
  end.

(** [ManagedThriftClientProtocol.connectionLost]: unless aborted, the
    parent class fails every request of the client that is still
    outstanding with a transport exception. *)
Definition connectionLost (p : nat) (s : state) : state :=
  let s := if negb (p_aborted (proto_at s p))
           then call_finished p (Fail TTransportException) s
           else s in
  clientGone p s.

(** *** The handshake *)

(** What the remote side answers to the calls of the handshake. *)
Record replies : Type := Replies {
  login_reply : outcome;
  describe_version_reply : outcome;
  set_keyspace_reply : outcome;
}.

(** Truth value of [self.keyspace]: [None] and the empty string are
    false. *)
Definition truthy_keyspace (k : option string) : option string :=
  match k with
  | Some EmptyString => None
  | other => other
  end.

(** The callback [gotVersion]. *)
Definition gotVersion (ver : value) : res value :=
  match ver with
  | VStr v =>
      match Version.match_thrift_version VERSION v with
      | Raise e => Raise e
      | Ok true => Ok (VBool true)
      | Ok false => Raise (APIMismatch v VERSION)
      end
  | _ => Raise AttributeError
  end.

(** The callbacks that [setupConnection] chains. *)
Inductive setup_callback : Type :=
  | DescribeVersion
      (** [lambda _: self.client.describe_version()] *)
  | GotVersion
      (** [gotVersion] *)
  | SetKeyspace (keyspace : string)
      (** [lambda _: self.client.set_keyspace(self.keyspace)] *).

(** One callback of the chain on the value [v]; a callback that makes a
    remote call passes on the answer of the remote side. *)
Definition run_setup_callback (p : nat) (rp : replies) (cb : setup_callback)
    (v : value) (s : state) : outcome * state :=
  match cb with
  | DescribeVersion => (describe_version_reply rp, log (EvCall p "describe_version" []) s)
  | GotVersion =>
      (match gotVersion v with Ok v' => Succ v' | Raise e => Fail e end, s)
  | SetKeyspace k => (set_keyspace_reply rp, log (EvCall p "set_keyspace" [VStr k]) s)
  end.

(** A chain of [addCallback]s: a Failure skips the callbacks that are
    left. *)
Fixpoint run_setup_callbacks (p : nat) (rp : replies) (cbs : list setup_callback)
    (cur : outcome) (s : state) : outcome * state :=
  match cbs with
  | [] => (cur, s)
  | cb :: rest =>
      match cur with
      | Fail e => run_setup_callbacks p rp rest (Fail e) s
      | Succ v =>
          let '(cur', s') := run_setup_callback p rp cb v s in
          run_setup_callbacks p rp rest cur' s'
      end
  end.

Definition setup_callbacks (o : proto) : list setup_callback :=
  (if p_check_api_version o then [DescribeVersion; GotVersion] else [])
  ++ match truthy_keyspace (p_keyspace o) with
     | Some k => [SetKeyspace k]
     | None => []
     end.

(** [ManagedThriftClientProtocol.setupConnection], run to the end. *)
Definition Managed_setupConnection (p : nat) (rp : replies) (s : state) : outcome * state :=
  run_setup_callbacks p rp (setup_callbacks (proto_at s p)) (Succ (VBool true)) s.

(** [AuthenticatedThriftClientProtocol.setupConnection], run to the
    end. *)
Definition Authenticated_setupConnection (credentials : list (string * string))
    (p : nat) (rp : replies) (s : state) : outcome * state :=
  let s := log (EvCall p "login" [VDict credentials]) s in
  match login_reply rp with
  | Succ _ => Managed_setupConnection p rp s
  | Fail e => (Fail e, s)
  end.

Definition setupConnection (p : nat) (rp : replies) (s : state) : outcome * state :=
  match p_class (proto_at s p) with
  | Managed => Managed_setupConnection p rp s
  | Authenticated credentials => Authenticated_setupConnection credentials p rp s
  end.

Definition setupFailed (p : nat) (err : exn) : M unit :=
  loseConnection p ;;
  lift (clientSetupFailed err).

(** [connectionMade]: [d.addCallbacks(clientIdle, setupFailed)]. *)
Definition connectionMade (p : nat) (rp : replies) (s : state) : state :=
  let '(o, s) := setupConnection p rp s in
  match o with
  | Succ res => clientIdle p res s
  | Fail err => run_callback (setupFailed p err) s
  end.

(** [buildProtocol]: a new protocol object of the class that the
    credentials select. *)
Definition buildProtocol (s : state) : nat * state :=
  let p := next_proto s in
  let o := Proto (match f_credentials s with
                  | [] => Managed
                  | credentials => Authenticated credentials
                  end)
                 None false (f_keyspace s) (f_check_api_version s) None in
  (p, set_next_proto (S p) (set_protos (λ m, <[p := o]> m) s)).

(** [makeConnection(transport)] of Twisted: the protocol gets its
    transport, then [connectionMade] runs. *)
Definition makeConnection (p : nat) (rp : replies) (s : state) : state :=
  connectionMade p rp (update_proto p (with_transport (Some true)) s).

(** [ManagedCassandraClientFactory(keyspace, retries, credentials,
    check_api_version)]. *)
Definition new_factory (keyspace : option string) (retries : Z)
    (credentials : list (string * string)) (check_api_version : bool) : state :=
  State ∅ 0 ∅ 0 Unfired [] [] true [] [] retries keyspace credentials check_api_version [].

(** *** What happens to a pool *)

Inductive input : Type :=
  | Connected (rp : replies)
      (** a connection is made; [rp] is what its handshake is answered *)
  | ConnectionFailed (reason : exn)
  | Push (request : request) (retries : option Z)
  | Finished (p : nat) (o : outcome)
      (** the remote call in flight on [p] finishes with [o] *)
  | Lost (p : nat)
      (** the connection of [p] is gone *)
  | SetKeyspaceAll (keyspace : string)
  | LoginAll (credentials : list (string * string))
  | Shutdown.

Definition step (i : input) (s : state) : state :=
  match i with
  | Connected rp => let '(p, s) := buildProtocol s in makeConnection p rp s
  | ConnectionFailed reason => clientConnectionFailed reason s
  | Push request retries => snd (pushRequest request retries s)
  | Finished p o => call_finished p o s
  | Lost p => connectionLost p (update_proto p (with_transport (Some false)) s)
  | SetKeyspaceAll keyspace => snd (set_keyspace keyspace s)
  | LoginAll credentials => snd (login credentials s)
  | Shutdown => snd (shutdown s)
  end.

Definition run (inputs : list input) (s : state) : state := foldl (λ s i, step i s) s inputs.

(** The states a pool can be in. *)
Inductive reachable : state → Prop :=
  | reachable_new keyspace retries credentials check_api_version :
      reachable (new_factory keyspace retries credentials check_api_version)
  | reachable_step i s : reachable s → reachable (step i s).

(** *** Observations on the trace *)

Definition is_attempt (d : nat) (e : event) : bool :=
  match e with
  | EvAttempt _ d' => bool_decide (d' = d)
  | _ => false
  end.

Definition is_fired (d : nat) (e : event) : bool :=
  match e with
  | EvFired d' _ => bool_decide (d' = d)
  | _ => false
  end.

(** How many times [_process] has submitted the request of [d]. *)
Definition attempts (d : nat) (s : state) : nat :=
  length (List.filter (is_attempt d) (trace s)).

(** How many times the caller's Deferred [d] has fired. *)
Definition deliveries (d : nat) (s : state) : nat :=
  length (List.filter (is_fired d) (trace s)).

End Pool.

(** ** Sample pools *)

(** A sample of the operations of [Cassandra.Client], for the examples. *)
Definition sample_client (name : string) : bool :=
  bool_decide (name ∈ ["login"; "set_keyspace"; "get"; "get_slice"; "insert";
                       "remove"; "batch_mutate"; "describe_version"]).

(** A remote side that accepts every call of the handshake. *)
Definition answers_well : replies :=
  Replies (Succ VNone) (Succ (VStr "19.4.0")) (Succ VNone).

Definition get_request : request := ManagedThriftRequest "get" [VStr "key"].

(** A pool with one registered protocol that waits for work. *)
Definition one_idle : state :=
  step sample_client "19.4.0" (Connected answers_well) (new_factory None 0 [] false).

(** A pool whose only protocol waits for work although its connection is
    gone. *)
Definition stale_waiter : state := step sample_client "19.4.0" (Lost 0) one_idle.

(** A pool with one request in flight on its only protocol and a second
    request in the queue. *)
Definition one_busy_one_queued : state :=
  run sample_client "19.4.0"
    [Push (ManagedThriftRequest "get" [VStr "a"]) None;
     Push (ManagedThriftRequest "get" [VStr "b"]) None]
    one_idle.

(** One connection, then a request pushed with [retries]. *)
Definition pushed_with (retries : Z) : state :=
  run sample_client "19.4.0"
    [Connected answers_well; Push get_request (Some retries)]
    (new_factory None 0 [] false).


Definition newer_remote : replies := Replies (Succ VNone) (Succ (VStr "20.0.0")) (Succ VNone).

(** ** The handshake, step by step *)

(** The handshake as the specification words it: an ordered list of steps,
    each present or not by the configuration, run one after the other and
    left at the first failure. *)
Inductive handshake_step : Type :=
  | StepLogin (credentials : list (string * string))
  | StepVersionCheck
  | StepNamespace (name : string).

Definition handshake_steps (o : proto) : list handshake_step :=
  match p_class o with
  | Authenticated credentials => [StepLogin credentials]
  | Managed => []
  end
  ++ (if p_check_api_version o then [StepVersionCheck] else [])
  ++ match truthy_keyspace (p_keyspace o) with
     | Some name => [StepNamespace name]
     | None => []
     end.

(** The remote call a step makes. *)
Definition step_call (p : nat) (st : handshake_step) : event :=
  match st with
  | StepLogin credentials => EvCall p "login" [VDict credentials]
  | StepVersionCheck => EvCall p "describe_version" []
  | StepNamespace name => EvCall p "set_keyspace" [VStr name]
  end.

(** How a step ends, given what the remote side answers. *)
Definition step_outcome (VERSION : string) (rp : replies) (st : handshake_step) : outcome :=
  match st with
  | StepLogin _ =>
      match login_reply rp with
      | Succ _ => Succ (VBool true)
      | Fail e => Fail e
      end
  | StepVersionCheck =>
      match describe_version_reply rp with
      | Succ ver => match gotVersion VERSION ver with
                    | Ok v => Succ v
                    | Raise e => Fail e
                    end
      | Fail e => Fail e
      end
  | StepNamespace _ => set_keyspace_reply rp
  end.

(** The calls made, oldest first, and the result of the handshake. *)
Fixpoint run_steps (VERSION : string) (p : nat) (rp : replies)
    (steps : list handshake_step) (last : value) : list event * outcome :=
  match steps with
  | [] => ([], Succ last)
  | st :: rest =>
      match step_outcome VERSION rp st with
      | Fail e => ([step_call p st], Fail e)
      | Succ v =>
          let '(made, result) := run_steps VERSION p rp rest v in
          (step_call p st :: made, result)
      end
  end.


(** ** Notions the results are stated with *)

(** The second half of the claim on [submitRequest] as the specification
    words it: a handler without a request in flight accepts whatever is
    submitted and records it. *)
Definition accepts_when_idle (client_has : string → bool)
    (s : state) (p : nat) (req : request) : Prop :=
  p_deferred (proto_at s p) = None →
  ∃ s', proto_submitRequest client_has p req s = (Ok (), s')
        ∧ p_deferred (proto_at s' p) = Some (Call req None).

(** A property of the pool is [stable] when the elementary updates of the
    queue engine keep it: changing a protocol object, recording an attempt
    or a remote call, changing the queue or the factory's own Deferred, and
    settling a caller's Deferred (firing it, then removing it from
    [_pending]). *)
Record stable (P : state → Prop) : Prop := Stable {
  stable_update_proto p f s : P s → P (update_proto p f s);
  stable_log_attempt p d s : P s → P (log (EvAttempt p d) s);
  stable_log_call p m a s : P s → P (log (EvCall p m a) s);
  stable_queue_pending l s : P s → P (set_queue_pending l s);
  stable_queue_waiting l s : P s → P (set_queue_waiting l s);
  stable_f_deferred r s : P s → P (set_f_deferred r s);
  stable_settle d o s : P s → P (run_callback (fire d o ;; pending_remove d) s);
}.

(** A property is [kept] when it is stable and the remaining elementary
    updates of the pool keep it as well: registering a protocol that is not
    registered, removing one, building a protocol object, handing out a
    Deferred, changing the keyspace, disabling reconnection, and firing a
    Deferred that has not fired. *)
Record kept (P : state → Prop) : Prop := Kept {
  kept_stable : stable P;
  kept_register p s : p ∉ _protos s → P s → P (set__protos (_protos s ++ [p]) s);
  kept_unregister p l s : list_remove p (_protos s) = Ok l → P s → P (set__protos l s);
  kept_build o s :
    P s → P (set_next_proto (S (next_proto s))
               (set_protos (λ m, <[next_proto s := o]> m) s));
  kept_push s :
    P s → P (set__pending (_pending s ++ [next_handle s])
               (set_next_handle (S (next_handle s)) s));
  kept_keyspace k s : P s → P (set_f_keyspace k s);
  kept_stop s : P s → P (set_continueTrying false s);
  kept_fire d o s :
    handles s !! d = None → P s → P (log (EvFired d o) (set_handles (λ m, <[d := o]> m) s));
}.

(** The callers' Deferreds are accounted for: one that has been handed out
    and has not fired is in [_pending], and a Deferred has fired once if it
    has a result and never otherwise. *)
Record handles_ok (s : state) : Prop := HandlesOk {
  pending_covers d : (d < next_handle s)%nat → handles s !! d = None → d ∈ _pending s;
  fired_once d : deliveries d s = if called s d then 1%nat else 0%nat;
}.

(** What every pool that can be reached satisfies. *)
Definition pool_ok (s : state) : Prop := NoDup (_protos s) ∧ handles_ok s.

(** A pool at rest: no reconnection, no registered protocol with a
    connected transport, no Deferred in [_pending] that has not fired. *)
Record quiet (s : state) : Prop := Quiet {
  quiet_continueTrying : continueTrying s = false;
  quiet_transports p : p ∈ _protos s → p_transport (proto_at s p) ≠ Some true;
  quiet_pending d : d ∈ _pending s → is_Some (handles s !! d);
}.

(** The bodies of the two loops of [shutdown]. *)
Definition lose_if_any (p : nat) : M unit :=
  λ s, if bool_decide (is_Some (p_transport (proto_at s p)))
       then loseConnection p s else ret () s.

Definition errback_unless_called (err : pyobj) (d : nat) : M unit :=
  λ s, if negb (called s d) then errback d err s else ret () s.

(** The request of the caller's Deferred [d] is in flight on the
    registered protocol [p], its callbacks carry [r], nothing is queued
    and nobody waits; [k] attempts have been made. *)
Record in_flight (client_has : string → bool) (s : state)
    (p : nat) (req : request) (d : nat) (r : Z) (k : nat) : Prop := InFlight {
  flight_method : client_has (method req) = true;
  flight_member : p ∈ _protos s;
  flight_slot : p_deferred (proto_at s p) = Some (Call req (Some (req, d, r)));
  flight_queue : queue_pending s = [];
  flight_waiting : queue_waiting s = [];
  flight_unfired : handles s !! d = None;
  flight_pending : d ∈ _pending s;
  flight_attempts : attempts d s = k;
}.

(** ** Notions the further properties are stated with *)

(** Strings without a dot. *)
Fixpoint no_dot (s : string) : bool :=
  match s with
  | EmptyString => true
  | String c rest => negb (bool_decide (c = "."%char)) && no_dot rest
  end.

(** The registered protocol [p], with no request in flight, is the only
    one that waits for work, and nothing is queued. *)
Record waits_alone (s : state) (p : nat) : Prop := WaitsAlone {
  alone_member : p ∈ _protos s;
  alone_slot : p_deferred (proto_at s p) = None;
  alone_queue : queue_pending s = [];
  alone_waiting : queue_waiting s = [p];
}.

(** The queue and the factory's own Deferred. *)
Definition core (s : state) : list item * list nat * readiness :=
  (queue_pending s, queue_waiting s, f_deferred s).

(** The items that [pushRequest] makes of a list of requests with their
    [retries] arguments, the first Deferred being [first]. *)
Fixpoint queued (default : Z) (first : nat) (pushes : list (request * option Z))
    : list item :=
  match pushes with
  | [] => []
  | (req, retries) :: rest =>
      (req, first, or_default retries default) :: queued default (S first) rest
  end.

(** The pushes as inputs of the pool. *)
Definition pushes_in (pushes : list (request * option Z)) : list input :=
  map (λ x, Push (fst x) (snd x)) pushes.

(** * Results *)

(** ** Version strings *)

Example split_example : Version.split "." "2.3.1" = ["2"; "3"; "1"].
Proof. reflexivity. Qed.

Example split_empty_pieces : Version.split "." ".a." = [""; "a"; ""].
Proof. reflexivity. Qed.

Example py_int_example : Version.py_int " -042 " = Ok (-42).
Proof. reflexivity. Qed.

Example py_int_empty : Version.py_int "" = Raise ValueError.
Proof. reflexivity. Qed.

Example version_string_example : Version.version_string 19 4 0 = "19.4.0".
Proof. reflexivity. Qed.

Example match_example : Version.match_thrift_version "2.1.0" "2.3.1" = Ok true.
Proof. reflexivity. Qed.

Section VersionFacts.
Import Version.

Lemma digit_not_space c : is_Some (digit_value c) → is_space c = false.
Proof.
  unfold digit_value, is_space. intros [d Hd].
  generalize dependent (nat_of_ascii c). intros n Hd.
  destruct (bool_decide_reflect (48 ≤ n)%nat); [|discriminate].
  destruct (bool_decide_reflect (n ≤ 57)%nat); [|discriminate].
  rewrite (bool_decide_eq_false_2 (n = 32%nat)) by lia.
  rewrite (bool_decide_eq_false_2 (n ≤ 13)%nat) by lia.
  apply andb_false_r.
Qed.

Lemma digit_not_dot c : is_Some (digit_value c) → c ≠ "."%char.
Proof. intros [d Hd] ->. vm_compute in Hd. discriminate. Qed.

Lemma digit_not_sign c :
  is_Some (digit_value c) → c ≠ "+"%char ∧ c ≠ "-"%char.
Proof. intros [d Hd]. split; intros ->; vm_compute in Hd; discriminate. Qed.

Lemma all_digits_string_of_uint d : all_digits (NilEmpty.string_of_uint d) = true.
Proof. induction d; simpl; auto. Qed.

Lemma decimal_all_digits n : all_digits (decimal n) = true.
Proof. apply all_digits_string_of_uint. Qed.

Lemma decimal_nonempty n : decimal n ≠ EmptyString.
Proof.
  unfold decimal.
  assert (Hn : Nat.to_uint n ≠ Decimal.Nil).
  { rewrite <- (Unsigned.of_to n) at 1. rewrite Unsigned.to_of.
    apply DecimalFacts.unorm_nonnil. }
  destruct (Nat.to_uint n); try congruence; discriminate.
Qed.

Lemma rstrip_all_digits s : all_digits s = true → rstrip s = s.
Proof.
  induction s as [|c s IH]; simpl; [reflexivity|].
  intros [Hc Hs]%andb_prop. rewrite (IH Hs).
  destruct s; [|reflexivity].
  apply bool_decide_eq_true in Hc. by rewrite (digit_not_space _ Hc).
Qed.

Lemma strip_all_digits s : all_digits s = true → strip s = s.
Proof.
  intros Hs. unfold strip.
  assert (lstrip s = s) as ->; [|by apply rstrip_all_digits].
  destruct s as [|c s]; simpl in *; [reflexivity|].
  apply andb_prop in Hs as [Hc _]. apply bool_decide_eq_true in Hc.
  by rewrite (digit_not_space _ Hc).
Qed.

Lemma digits_string_of_uint d acc :
  digits (Z.of_nat acc) (NilEmpty.string_of_uint d)
  = Some (Z.of_nat (Nat.of_uint_acc d acc)).
Proof.
  revert acc.
  induction d; intros acc; cbn [NilEmpty.string_of_uint digits Nat.of_uint_acc];
    [reflexivity|..];
    match goal with
    | |- context [digit_value ?c] =>
        let v := eval vm_compute in (digit_value c) in
        change (digit_value c) with v
    end;
    rewrite <- IHd; f_equal; rewrite Nat.tail_mul_spec; lia.
Qed.

(** [int] reads back what [decimal] writes. *)
Lemma py_int_decimal n : py_int (decimal n) = Ok (Z.of_nat n).
Proof.
  unfold py_int. rewrite strip_all_digits by apply decimal_all_digits.
  pose proof (decimal_nonempty n) as Hne.
  pose proof (decimal_all_digits n) as Hd.
  assert (Hu : unsigned_literal (decimal n) = Ok (Z.of_nat n)).
  { unfold unsigned_literal. destruct (decimal n) eqn:E; [congruence|].
    rewrite <- E. unfold decimal.
    rewrite (digits_string_of_uint _ 0). fold (Nat.of_uint (Nat.to_uint n)).
    by rewrite Unsigned.of_to. }
  destruct (decimal n) as [|c rest] eqn:E; [congruence|].
  simpl in Hd. apply andb_prop in Hd as [Hc _]. apply bool_decide_eq_true in Hc.
  destruct (digit_not_sign _ Hc) as [Hplus Hminus].
  destruct c as [[] [] [] [] [] [] [] []]; try exact Hu; congruence.
Qed.

Lemma split_no_dot s : all_digits s = true → split "." s = [s].
Proof.
  induction s as [|c s IH]; simpl; [reflexivity|].
  intros [Hc Hs]%andb_prop. apply bool_decide_eq_true in Hc.
  rewrite bool_decide_eq_false_2 by by apply digit_not_dot.
  by rewrite (IH Hs).
Qed.

Lemma split_digits_dot s t :
  all_digits s = true → split "." (s ++ "." ++ t) = s :: split "." t.
Proof.
  induction s as [|c s IH]; simpl; [reflexivity|].
  intros [Hc Hs]%andb_prop. apply bool_decide_eq_true in Hc.
  rewrite bool_decide_eq_false_2 by by apply digit_not_dot.
  by rewrite (IH Hs).
Qed.

Lemma triple_version_string a b c :
  triple (version_string a b c) = Ok (Z.of_nat a, Z.of_nat b, Z.of_nat c).
Proof.
  unfold triple, version_string.
  rewrite !split_digits_dot, split_no_dot by apply decimal_all_digits.
  simpl. by rewrite !py_int_decimal.
Qed.

Lemma match_version_strings oM om op rM rm rp :
  match_thrift_version (version_string oM om op) (version_string rM rm rp)
  = Ok (bool_decide (rM = oM) && bool_decide (om ≤ rm)%nat).
Proof.
  unfold match_thrift_version. rewrite !triple_version_string. f_equal.
  repeat case_bool_decide; simpl; try reflexivity; lia.
Qed.

End VersionFacts.

(** ** The object store *)

Lemma proto_at_update_eq p f s : proto_at (update_proto p f s) p = f (proto_at s p).
Proof. unfold proto_at, update_proto. simpl. by rewrite lookup_insert_eq. Qed.

Lemma proto_at_update_ne p q f s : p ≠ q → proto_at (update_proto p f s) q = proto_at s q.
Proof. intros Hne. unfold proto_at, update_proto. simpl. by rewrite lookup_insert_ne. Qed.

Lemma update_proto_twice p f g s :
  update_proto p g (update_proto p f s) = update_proto p (λ o, g (f o)) s.
Proof.
  unfold update_proto at 1. rewrite proto_at_update_eq.
  unfold update_proto, set_protos. simpl. by rewrite insert_insert_eq.
Qed.

Lemma update_proto_ext p f g s :
  f (proto_at s p) = g (proto_at s p) → update_proto p f s = update_proto p g s.
Proof. intros H. unfold update_proto. by rewrite H. Qed.

Lemma proto_at_same_protos s' s p : protos s' = protos s → proto_at s' p = proto_at s p.
Proof. intros H. unfold proto_at. by rewrite H. Qed.

Lemma proto_at_log e s p : proto_at (log e s) p = proto_at s p.
Proof. reflexivity. Qed.

(** ** Submitting to a protocol *)

Section SubmitFacts.
Context (client_has : string → bool).

Lemma submit_busy p req c s :
  p_deferred (proto_at s p) = Some c →
  proto_submitRequest client_has p req s = (Raise ClientBusy, s).
Proof. intros H. unfold proto_submitRequest. by rewrite H. Qed.

Lemma submit_invalid p req s :
  p_deferred (proto_at s p) = None → client_has (method req) = false →
  proto_submitRequest client_has p req s = (Raise InvalidThriftRequest, s).
Proof. intros H Hm. unfold proto_submitRequest. by rewrite H, Hm. Qed.

Lemma submit_idle p req s :
  p_deferred (proto_at s p) = None → client_has (method req) = true →
  proto_submitRequest client_has p req s
  = (Ok (), update_proto p (with_deferred (Some (Call req None)))
              (log (EvCall p (method req) (args req)) s)).
Proof. intros H Hm. unfold proto_submitRequest. by rewrite H, Hm. Qed.

(** An idle handler takes one request and refuses the next. *)
Lemma submit_once p req s :
  p_deferred (proto_at s p) = None → client_has (method req) = true →
  ∃ s', proto_submitRequest client_has p req s = (Ok (), s')
        ∧ p_deferred (proto_at s' p) = Some (Call req None)
        ∧ ∀ req', proto_submitRequest client_has p req' s' = (Raise ClientBusy, s').
Proof.
  intros Hslot Hm. rewrite (submit_idle _ _ _ Hslot Hm). eexists.
  split; [reflexivity|]. split; [by rewrite proto_at_update_eq|].
  intros req'. eapply submit_busy. by rewrite proto_at_update_eq.
Qed.

End SubmitFacts.

(** C6, as stated, fails: an idle handler does not accept a request whose
    method the client does not have; it raises [InvalidThriftRequest] and
    records nothing. *)
Lemma idle_handler_rejects_unknown_method :
  ¬ accepts_when_idle sample_client one_idle 0 (ManagedThriftRequest "no_such_call" []).
Proof.
  intros H. destruct H as (s' & Hs' & _); [reflexivity|].
  vm_compute in Hs'. discriminate.
Qed.

(** C6 (amended): a handler with a request in flight answers a further
    submission with [ClientBusy] and nothing changes: no remote operation is
    invoked, the slot, its callbacks and every field of the pool are as they
    were, so the first call finishes as it would have.  A handler without a
    request in flight accepts a request whose method is an operation of the
    client: the operation is invoked once, the request becomes the request
    in flight, no other handler changes, and a further submission is
    refused with [ClientBusy].  For a method the client does not have an
    idle handler raises [InvalidThriftRequest] and nothing changes. *)
Theorem submitRequest_busy_or_recorded (client_has : string → bool)
    (p : nat) (req : request) (s : state) :
  match p_deferred (proto_at s p) with
  | Some c =>
      proto_submitRequest client_has p req s = (Raise ClientBusy, s)
      ∧ ∀ o, call_finished client_has p o (snd (proto_submitRequest client_has p req s))
             = call_finished client_has p o s
  | None =>
      if client_has (method req)
      then ∃ s', proto_submitRequest client_has p req s = (Ok (), s')
                 ∧ p_deferred (proto_at s' p) = Some (Call req None)
                 ∧ trace s' = (trace s ++ [EvCall p (method req) (args req)])%list
                 ∧ (∀ q, q ≠ p → proto_at s' q = proto_at s q)
                 ∧ ∀ req', proto_submitRequest client_has p req' s' = (Raise ClientBusy, s')
      else proto_submitRequest client_has p req s = (Raise InvalidThriftRequest, s)
  end.
Proof.
  destruct (p_deferred (proto_at s p)) as [c|] eqn:Hslot.
  - rewrite (submit_busy _ _ _ _ _ Hslot). auto.
  - destruct (client_has (method req)) eqn:Hm.
    + rewrite (submit_idle _ _ _ _ Hslot Hm). eexists. split; [reflexivity|].
      split; [by rewrite proto_at_update_eq|].
      split; [reflexivity|].
      split; [intros q Hq; by rewrite proto_at_update_ne|].
      intros req'. eapply submit_busy. by rewrite proto_at_update_eq.
    + by apply submit_invalid.
Qed.

(** ** Lists *)

Lemma list_remove_absent x l : x ∉ l → list_remove x l = Raise ValueError.
Proof.
  induction l as [|y l IH]; simpl; [reflexivity|].
  intros Hx. apply not_elem_of_cons in Hx as [Hne Hx].
  rewrite bool_decide_eq_false_2 by congruence. by rewrite IH.
Qed.

Lemma list_remove_present x l :
  x ∈ l →
  ∃ l', list_remove x l = Ok l'
        ∧ (∀ y, y ≠ x → y ∈ l' ↔ y ∈ l)
        ∧ (∀ y, y ∈ l' → y ∈ l)
        ∧ length l = S (length l')
        ∧ (NoDup l → NoDup l' ∧ x ∉ l').
Proof.
  induction l as [|y l IH]; [by intros ?%elem_of_nil|].
  intros Hx. simpl. case_bool_decide as Hy.
  - subst y. exists l. split; [reflexivity|]. split; [|split; [|split]].
    + intros z Hz. rewrite elem_of_cons. split; [auto|]. by intros [?|?].
    + intros z Hz. by apply elem_of_cons; right.
    + reflexivity.
    + intros Hnd. by apply NoDup_cons in Hnd as [? ?].
  - apply elem_of_cons in Hx as [->|Hx]; [done|].
    destruct (IH Hx) as (l' & -> & Hiff & Hsub & Hlen & Hnd).
    exists (y :: l'). split; [reflexivity|]. split; [|split; [|split]].
    + intros z Hz. rewrite !elem_of_cons, (Hiff z Hz). done.
    + intros z [->|Hz]%elem_of_cons; apply elem_of_cons; auto.
    + simpl. by rewrite Hlen.
    + intros [Hyl Hl]%NoDup_cons. destruct (Hnd Hl) as [Hnd' Hx'].
      split.
      * apply NoDup_cons. split; [|done]. intros Hy'. by apply Hyl, Hsub.
      * intros [->|?]%elem_of_cons; done.
Qed.

(** ** The queue *)

Section QueueFacts.
Context (client_has : string → bool).

(** [_process] calls [put] only in states in which [self.queue.waiting]
    is what it found. *)
Lemma _process_put_ext put1 put2 p it s :
  (∀ obj s', queue_waiting s' = queue_waiting s → put1 obj s' = put2 obj s') →
  _process client_has put1 p it s = _process client_has put2 p it s.
Proof.
  intros Hput. destruct it as [[req d] r]. unfold _process.
  destruct (negb (bool_decide (p ∈ _protos s))).
  { unfold lift. by rewrite Hput. }
  unfold bind, try_except, lift, ret, proto_submitRequest.
  destruct (p_deferred (proto_at (log (EvAttempt p d) s) p)).
  - unfold abort, bind, lift, loseConnection.
    destruct (p_transport _); [|reflexivity].
    unfold run_callback, reqError.
    destruct (_ || _); [reflexivity|]. unfold lift. simpl. by rewrite Hput.
  - destruct (client_has (method req)); [reflexivity|].
    unfold abort, bind, lift, loseConnection.
    destruct (p_transport _); [|reflexivity].
    unfold run_callback, reqError.
    destruct (_ || _); [reflexivity|]. unfold lift. simpl. by rewrite Hput.
Qed.

Lemma put_from_waiting ws obj s :
  queue_waiting s = ws → put_from client_has ws obj s = put client_has obj s.
Proof. intros <-. reflexivity. Qed.

(** [DeferredQueue.put], as the class defines it. *)
Lemma put_unfold obj s :
  put client_has obj s
  = match queue_waiting s with
    | [] => set_queue_pending (queue_pending s ++ [obj]) s
    | proto :: rest =>
        run_callback (_process client_has (put client_has) proto obj)
          (set_queue_waiting rest s)
    end.
Proof.
  unfold put at 1. destruct (queue_waiting s) as [|w rest]; [reflexivity|].
  simpl. unfold run_callback. f_equal. apply _process_put_ext.
  intros obj' s' Hs'. by apply put_from_waiting.
Qed.

Lemma put_no_waiter obj s :
  queue_waiting s = [] → put client_has obj s = set_queue_pending (queue_pending s ++ [obj]) s.
Proof. intros H. rewrite put_unfold. by rewrite H. Qed.

Lemma _process_stale put' p it s :
  p ∉ _protos s → _process client_has put' p it s = (Ok (), put' it s).
Proof.
  intros Hp. destruct it as [[req d] r]. unfold _process.
  by rewrite bool_decide_eq_false_2.
Qed.

(** A registered protocol without a request in flight is handed the item:
    the attempt is recorded, the operation invoked, and the callbacks
    carry the retries less one. *)
Lemma _process_dispatch put' p req d r s :
  p ∈ _protos s → p_deferred (proto_at s p) = None → client_has (method req) = true →
  _process client_has put' p (req, d, r) s
  = (Ok (), update_proto p (with_deferred (Some (Call req (Some (req, d, r - 1)))))
              (log (EvCall p (method req) (args req)) (log (EvAttempt p d) s))).
Proof.
  intros Hp Hslot Hm. unfold _process.
  rewrite bool_decide_eq_true_2 by done. simpl.
  unfold bind, try_except, lift, ret. rewrite submit_idle by done.
  simpl. f_equal. unfold add_pool_callbacks. rewrite update_proto_twice.
  by apply update_proto_ext.
Qed.

End QueueFacts.

(** ** Properties that the queue engine keeps *)

Section Stable.
Context (client_has : string → bool) (P : state → Prop) (HP : stable P).

Lemma stable_submit p req s : P s → P (snd (proto_submitRequest client_has p req s)).
Proof.
  intros Hs. unfold proto_submitRequest.
  destruct (p_deferred _); [done|]. destruct (client_has _); [|done].
  simpl. by apply stable_update_proto, stable_log_call.
Qed.

Lemma stable_abort p s : P s → P (snd (abort p s)).
Proof.
  intros Hs. unfold abort, bind, lift, loseConnection.
  destruct (p_transport _); simpl; repeat apply stable_update_proto; done.
Qed.

Lemma stable_reqError put' err req d r s :
  (∀ obj s', P s' → P (put' obj s')) →
  P s → P (run_callback (reqError put' err req d r) s).
Proof.
  intros Hput Hs. unfold reqError.
  destruct (_ || _); [exact (stable_settle P HP d _ s Hs)|].
  unfold run_callback, lift. simpl. by apply Hput.
Qed.

Lemma stable_reqSuccess v d s : P s → P (run_callback (reqSuccess v d) s).
Proof. intros Hs. exact (stable_settle P HP d (Succ v) s Hs). Qed.

Lemma stable__process put' p it s :
  (∀ obj s', P s' → P (put' obj s')) →
  P s → P (run_callback (_process client_has put' p it) s).
Proof.
  intros Hput Hs. destruct it as [[req d] r]. unfold run_callback, _process.
  destruct (negb _); [by apply Hput|].
  unfold bind, try_except, lift, ret.
  pose proof (stable_submit p req _ (stable_log_attempt P HP p d s Hs)) as Hsub.
  destruct (proto_submitRequest client_has p req (log (EvAttempt p d) s))
    as [[[]|e] s1]; simpl in *.
  - unfold add_pool_callbacks. by apply stable_update_proto.
  - pose proof (stable_abort p _ Hsub) as Hab.
    destruct (abort p s1) as [[[]|e'] s2]; simpl in *; [|done].
    by apply stable_reqError.
Qed.

Lemma stable_put_from ws obj s : P s → P (put_from client_has ws obj s).
Proof.
  revert obj s. induction ws as [|w ws IH]; intros obj s Hs; simpl.
  - by apply stable_queue_pending.
  - apply stable__process; [exact IH|]. by apply stable_queue_waiting.
Qed.

Lemma stable_put obj s : P s → P (put client_has obj s).
Proof. apply stable_put_from. Qed.

Lemma stable_submitRequest p s : P s → P (submitRequest client_has p s).
Proof.
  intros Hs. unfold submitRequest. destruct (queue_pending s) as [|obj rest].
  - by apply stable_queue_waiting.
  - apply stable__process; [apply stable_put|]. by apply stable_queue_pending.
Qed.

Lemma stable__callback v s : P s → P (_callback v s).
Proof.
  intros Hs. unfold _callback. destruct (f_deferred s); [|done].
  by apply stable_f_deferred.
Qed.

Lemma stable__errback e s : P s → P (_errback e s).
Proof.
  intros Hs. unfold _errback. destruct (f_deferred s); [|done].
  by apply stable_f_deferred.
Qed.

(** A protocol that is registered already reports idle. *)
Lemma stable_clientIdle_member p v s :
  p ∈ _protos s → P s → P (clientIdle client_has p v s).
Proof.
  intros Hp Hs. unfold clientIdle. rewrite bool_decide_eq_true_2 by done.
  by apply stable__callback, stable_submitRequest.
Qed.

Lemma stable_for_each_submit req ps s :
  P s → P (snd (for_each ps (λ p, proto_submitRequest client_has p req) s)).
Proof.
  revert s. induction ps as [|p ps IH]; intros s Hs; simpl; [done|].
  unfold bind. pose proof (stable_submit p req s Hs) as H1.
  destruct (proto_submitRequest client_has p req s) as [[[]|e] s1]; simpl in *; auto.
Qed.

End Stable.

(** ** Two stable properties *)

Lemma settle_fields d o s :
  let s' := run_callback (fire d o ;; pending_remove d) s in
  _protos s' = _protos s ∧ next_handle s' = next_handle s
  ∧ queue_pending s' = queue_pending s ∧ queue_waiting s' = queue_waiting s
  ∧ protos s' = protos s ∧ continueTrying s' = continueTrying s
  ∧ f_deferred s' = f_deferred s.
Proof.
  unfold run_callback, bind, fire, pending_remove.
  destruct (handles s !! d); simpl; [done|].
  destruct (list_remove d (_pending s)); simpl; done.
Qed.

(** Whatever holds of the list of registered protocols is stable. *)
Lemma stable_registered (Q : list nat → Prop) : stable (λ s, Q (_protos s)).
Proof.
  split; try done.
  intros d o s Hs. by destruct (settle_fields d o s) as (-> & _).
Qed.

Lemma deliveries_log d e s :
  deliveries d (log e s) = (deliveries d s + if is_fired d e then 1 else 0)%nat.
Proof.
  unfold deliveries. simpl. rewrite List.filter_app, length_app. simpl.
  by destruct (is_fired d e).
Qed.

Lemma handles_ok_frame s s' :
  handles s' = handles s → _pending s' = _pending s → next_handle s' = next_handle s →
  (∀ d, deliveries d s' = deliveries d s) →
  handles_ok s → handles_ok s'.
Proof.
  intros Hh Hp Hn Hd [H1 H2]. split.
  - intros d. rewrite Hh, Hp, Hn. apply H1.
  - intros d. rewrite Hd. unfold called. rewrite Hh. apply H2.
Qed.

Lemma called_fire d d' o s :
  called (log (EvFired d o) (set_handles (λ m, <[d := o]> m) s)) d'
  = bool_decide (d = d') || called s d'.
Proof.
  unfold called. simpl. destruct (decide (d = d')) as [->|Hne].
  - rewrite lookup_insert_eq. rewrite bool_decide_eq_true_2 by eauto.
    by rewrite bool_decide_eq_true_2.
  - rewrite lookup_insert_ne by done. by rewrite (bool_decide_eq_false_2 (d = d')).
Qed.

(** Firing a Deferred that has not fired keeps the count of firings
    right. *)
Lemma fired_once_fire d o s :
  handles s !! d = None →
  (∀ d', deliveries d' s = if called s d' then 1%nat else 0%nat) →
  ∀ d', deliveries d' (log (EvFired d o) (set_handles (λ m, <[d := o]> m) s))
        = if called (log (EvFired d o) (set_handles (λ m, <[d := o]> m) s)) d'
          then 1%nat else 0%nat.
Proof.
  intros Hd H d'. rewrite called_fire, deliveries_log.
  change (deliveries d' (set_handles _ s)) with (deliveries d' s).
  rewrite H. simpl. destruct (decide (d = d')) as [->|Hne].
  - rewrite !bool_decide_eq_true_2 by done. simpl.
    unfold called. rewrite Hd. by rewrite bool_decide_eq_false_2 by by intros [? ?].
  - rewrite (bool_decide_eq_false_2 (d = d')) by done. simpl. lia.
Qed.

Lemma stable_handles_ok : stable handles_ok.
Proof.
  split; try (intros; eapply handles_ok_frame; [..|eassumption]; try reflexivity;
              intros; rewrite deliveries_log; simpl; lia).
  intros d o s [H1 H2]. unfold run_callback, bind, fire, pending_remove.
  destruct (handles s !! d) eqn:Hd; simpl; [by split|].
  assert (Hfired := fired_once_fire d o s Hd H2).
  destruct (decide (d ∈ _pending s)) as [Hin|Hout].
  - destruct (list_remove_present d _ Hin) as (l' & Hl' & Hiff & _).
    simpl. rewrite Hl'. simpl. split; [|exact Hfired].
    intros d' Hlt Hnone. simpl in *.
    destruct (decide (d' = d)) as [->|Hne]; [by rewrite lookup_insert_eq in Hnone|].
    rewrite lookup_insert_ne in Hnone by done. apply Hiff; auto.
  - simpl. rewrite (list_remove_absent _ _ Hout). simpl. split; [|exact Hfired].
    intros d' Hlt Hnone. simpl in *.
    destruct (decide (d' = d)) as [->|Hne]; [by rewrite lookup_insert_eq in Hnone|].
    rewrite lookup_insert_ne in Hnone by done. auto.
Qed.

(** ** What every reachable pool satisfies *)

Lemma pool_ok_frame s s' :
  _protos s' = _protos s → handles s' = handles s → _pending s' = _pending s →
  next_handle s' = next_handle s → (∀ d, deliveries d s' = deliveries d s) →
  pool_ok s → pool_ok s'.
Proof.
  intros Hp Hh Hpe Hn Hd [H1 H2]. split; [by rewrite Hp|].
  by apply (handles_ok_frame s).
Qed.

Lemma stable_pool_ok : stable pool_ok.
Proof.
  pose proof (stable_registered NoDup) as [A1 A2 A3 A4 A5 A6 A7].
  pose proof stable_handles_ok as [B1 B2 B3 B4 B5 B6 B7].
  split; intros; (split; [|by destruct H; auto]); destruct H as [H _]; revert H; auto.
Qed.

Section Kept.
Context (client_has : string → bool) (VERSION : string).
Context (P : state → Prop) (HP : kept P).

Let HS : stable P := kept_stable P HP.

Lemma kept_clientIdle p v s : P s → P (clientIdle client_has p v s).
Proof.
intros Hs. unfold clientIdle.
apply (stable__callback _ HS), (stable_submitRequest _ _ HS).
case_bool_decide as Hp; [done|]. by apply (kept_register P HP).
Qed.

Lemma kept__complete p o s : P s → P (snd (_complete client_has p o s)).
Proof.
intros Hs. unfold _complete, bind, lift, ret. simpl.
by apply kept_clientIdle, (stable_update_proto _ HS).
Qed.

Lemma kept_fire_call p c o s : P s → P (fire_call client_has p c o s).
Proof.
intros Hs. unfold fire_call.
pose proof (kept__complete p o s Hs) as H1.
destruct (_complete client_has p o s) as [r s1]. simpl in H1.
destruct (call_pool_args c) as [[[req d] r']|]; [|done].
destruct (match r with Ok o' => o' | Raise e => Fail e end).
- by apply (stable_reqSuccess _ HS).
- apply (stable_reqError _ HS); [|done].
  intros obj s'. apply (stable_put _ _ HS).
Qed.

Lemma kept_call_finished p o s : P s → P (call_finished client_has p o s).
Proof.
intros Hs. unfold call_finished. destruct (p_deferred _); [|done].
by apply kept_fire_call.
Qed.

Lemma kept_clientGone p s : P s → P (clientGone p s).
Proof.
intros Hs. unfold clientGone.
destruct (list_remove p (_protos s)) eqn:E; [|done].
by apply (kept_unregister P HP p).
Qed.

Lemma kept_connectionLost p s : P s → P (connectionLost client_has p s).
Proof.
intros Hs. unfold connectionLost. apply kept_clientGone.
destruct (negb _); [|done]. by apply kept_call_finished.
Qed.

Lemma stable_setup_callbacks p rp cbs cur s :
P s → P (snd (run_setup_callbacks VERSION p rp cbs cur s)).
Proof.
revert cur s. induction cbs as [|cb cbs IH]; intros cur s Hs; simpl; [done|].
destruct cur as [v|e]; [|by apply IH].
destruct cb; simpl; apply IH; try done; by apply (stable_log_call P HS).
Qed.

Lemma stable_setupConnection p rp s : P s → P (snd (setupConnection VERSION p rp s)).
Proof.
intros Hs. unfold setupConnection, Authenticated_setupConnection, Managed_setupConnection.
destruct (p_class _).
- by apply stable_setup_callbacks.
- destruct (login_reply rp); simpl.
  + apply stable_setup_callbacks. by apply (stable_log_call P HS).
  + by apply (stable_log_call P HS).
Qed.

Lemma kept_connectionMade p rp s : P s → P (connectionMade client_has VERSION p rp s).
Proof.
intros Hs. unfold connectionMade.
pose proof (stable_setupConnection p rp s Hs) as H1.
destruct (setupConnection VERSION p rp s) as [[v|e] s1]; simpl in H1.
- by apply kept_clientIdle.
- unfold run_callback, setupFailed, bind, lift, loseConnection, clientSetupFailed.
  destruct (p_transport _); simpl; [|done].
  by apply (stable__errback _ HS), (stable_update_proto _ HS).
Qed.

Lemma kept_pushRequest req r s : P s → P (snd (pushRequest client_has req r s)).
Proof.
intros Hs. unfold pushRequest. simpl.
by apply (stable_put _ _ HS), (kept_push P HP).
Qed.

Lemma kept_for_each_lose ps s :
P s →
P (snd (for_each ps (λ p s, if bool_decide (is_Some (p_transport (proto_at s p)))
                            then loseConnection p s else ret () s) s)).
Proof.
revert s. induction ps as [|p ps IH]; intros s Hs; simpl; [done|].
unfold bind, loseConnection, ret.
destruct (p_transport (proto_at s p)) eqn:Ht.
- rewrite bool_decide_eq_true_2 by eauto.
  by apply IH, (stable_update_proto _ HS).
- rewrite bool_decide_eq_false_2 by by intros [? ?]. by apply IH.
Qed.

Lemma kept_for_each_errback err ps s :
P s →
P (snd (for_each ps (λ d s, if negb (called s d) then errback d err s
                            else ret () s) s)).
Proof.
revert s. induction ps as [|d ps IH]; intros s Hs; simpl; [done|].
unfold bind, errback, fire, ret, called.
destruct (handles s !! d) eqn:Hd.
- rewrite bool_decide_eq_true_2 by eauto. simpl. by apply IH.
- rewrite bool_decide_eq_false_2 by by intros [? ?]. simpl.
  by apply IH, (kept_fire P HP).
Qed.

Lemma kept_shutdown s : P s → P (snd (shutdown s)).
Proof.
intros Hs. unfold shutdown, stopTrying, bind, lift.
pose proof (kept_for_each_lose (_protos (set_continueTrying false s))
              (set_continueTrying false s)) as H1.
destruct (for_each (_protos (set_continueTrying false s)) _ _) as [[[]|e] s1];
  simpl in *.
- apply kept_for_each_errback, H1. by apply (kept_stop P HP).
- apply H1. by apply (kept_stop P HP).
Qed.

Lemma kept_step i s : P s → P (step client_has VERSION i s).
Proof.
intros Hs. destruct i; simpl.
- apply kept_connectionMade, (stable_update_proto _ HS).
  by apply (kept_build P HP).
- by apply (stable__errback _ HS).
- by apply kept_pushRequest.
- by apply kept_call_finished.
- by apply kept_connectionLost, (stable_update_proto _ HS).
- unfold set_keyspace, bind, lift.
  apply (stable_for_each_submit _ _ HS). by apply (kept_keyspace P HP).
- by apply (stable_for_each_submit _ _ HS).
- by apply kept_shutdown.
Qed.

Lemma kept_run inputs s : P s → P (run client_has VERSION inputs s).
Proof.
revert s. induction inputs as [|i inputs IH]; intros s Hs; simpl; [done|].
by apply IH, kept_step.
Qed.

End Kept.

Lemma clientIdle_registered client_has p v s :
  _protos (clientIdle client_has p v s)
  = if bool_decide (p ∈ _protos s) then _protos s else (_protos s ++ [p])%list.
Proof.
  unfold clientIdle. destruct (bool_decide (p ∈ _protos s)).
  - by apply (stable__callback _ (stable_registered (λ l, l = _protos s))),
             (stable_submitRequest _ _ (stable_registered (λ l, l = _protos s))).
  - by apply (stable__callback _ (stable_registered (λ l, l = (_protos s ++ [p])%list))),
             (stable_submitRequest _ _ (stable_registered (λ l, l = (_protos s ++ [p])%list))).
Qed.

Lemma kept_pool_ok : kept pool_ok.
Proof.
  split.
  - exact stable_pool_ok.
  - intros p s Hp [Hnd Hh]. split; [|by apply (handles_ok_frame s)].
    simpl. apply NoDup_app. split; [done|]. split; [|apply NoDup_singleton].
    intros x Hx ->%list_elem_of_singleton. done.
  - intros p l s Hl [Hnd Hh]. split; [|by apply (handles_ok_frame s)].
    simpl. destruct (decide (p ∈ _protos s)) as [Hin|Hout].
    + destruct (list_remove_present _ _ Hin) as (l' & Hl' & _ & _ & _ & Hnd').
      rewrite Hl in Hl'. injection Hl' as <-. by apply Hnd'.
    + rewrite list_remove_absent in Hl by done. discriminate.
  - intros o s Hs. by apply (pool_ok_frame s).
  - intros s [Hnd [H1 H2]]. split; [done|]. split; [|exact H2].
    simpl. intros d Hd Hnone. apply elem_of_app.
    destruct (decide (d = next_handle s)) as [->|Hne].
    + right. by apply list_elem_of_singleton.
    + left. apply H1; [lia|done].
  - intros k s Hs. by apply (pool_ok_frame s).
  - intros s Hs. by apply (pool_ok_frame s).
  - intros d o s Hd [Hnd [H1 H2]]. split; [done|]. split.
    + simpl. intros d' Hlt Hnone. apply H1; [done|].
      destruct (decide (d' = d)) as [->|Hne]; [by rewrite lookup_insert_eq in Hnone|].
      by rewrite lookup_insert_ne in Hnone.
    + by apply fired_once_fire.
Qed.

Lemma reachable_ok client_has VERSION s : reachable client_has VERSION s → pool_ok s.
Proof.
  induction 1 as [ks r cr chk|i s _ IH]; [|by apply (kept_step _ _ _ kept_pool_ok)].
  split; [apply NoDup_nil_2|]. split; [simpl; lia|done].
Qed.

Lemma shutdown_ok s : pool_ok s → pool_ok (snd (shutdown s)).
Proof. apply (kept_shutdown _ kept_pool_ok). Qed.

(** The result of a Deferred that has fired is there to stay. *)
Lemma kept_result d o : kept (λ s, handles s !! d = Some o).
Proof.
  split; try done.
  - split; try done. intros d' o' s Hs.
    unfold run_callback, bind, fire, pending_remove.
    destruct (handles s !! d') eqn:Hd'; simpl; [done|].
    assert (d ≠ d') by congruence.
    destruct (list_remove d' (_pending s)); simpl; by rewrite lookup_insert_ne.
  - intros d' o' s Hd' Hs. simpl. rewrite lookup_insert_ne; [done|congruence].
Qed.


(** ** The pool's callbacks and requests *)

(** C9: [clientGone] is idempotent.  In every state a pool can reach,
    calling it for a registered handler takes that handler, and nothing
    else, out of the member list; calling it for a handler that is not
    registered (never was, or was removed before) raises nothing and leaves
    the whole pool as it is, so calling it twice is calling it once. *)
Theorem clientGone_idempotent (client_has : string → bool) (VERSION : string)
    (s : state) (p : nat) :
  reachable client_has VERSION s →
  (p ∈ _protos s →
     (p ∉ _protos (clientGone p s))
     ∧ (∀ q, q ≠ p → (q ∈ _protos (clientGone p s) ↔ q ∈ _protos s))
     ∧ length (_protos s) = S (length (_protos (clientGone p s))))
  ∧ (p ∉ _protos s → clientGone p s = s)
  ∧ clientGone p (clientGone p s) = clientGone p s.
Proof.
  intros Hr. destruct (reachable_ok _ _ _ Hr) as [Hnd _].
  assert (Habsent : ∀ s', p ∉ _protos s' → clientGone p s' = s').
  { intros s' Hp. unfold clientGone. by rewrite list_remove_absent. }
  assert (Hpresent : p ∈ _protos s →
     (p ∉ _protos (clientGone p s))
     ∧ (∀ q, q ≠ p → (q ∈ _protos (clientGone p s) ↔ q ∈ _protos s))
     ∧ length (_protos s) = S (length (_protos (clientGone p s)))).
  { intros Hp. unfold clientGone.
    destruct (list_remove_present _ _ Hp) as (l' & -> & Hiff & _ & Hlen & Hl').
    simpl. split; [by destruct (Hl' Hnd)|]. by split. }
  split; [exact Hpresent|]. split; [apply Habsent|].
  destruct (decide (p ∈ _protos s)) as [Hp|Hp].
  - apply Habsent. by apply Hpresent.
  - rewrite (Habsent s Hp). by apply Habsent.
Qed.

Lemma one_idle_reachable : reachable sample_client "19.4.0" one_idle.
Proof. apply reachable_step, reachable_new. Defined.

Lemma clientGone_idempotent_witness :
  reachable sample_client "19.4.0" one_idle
  ∧ clientGone 0 (clientGone 0 one_idle) = clientGone 0 one_idle.
Proof.
  split; [exact one_idle_reachable|].
  exact (proj2 (proj2 (clientGone_idempotent sample_client "19.4.0" one_idle 0
                         one_idle_reachable))).
Defined.

(** C10: [pushRequest] replaces a retry argument of 0, like a missing one,
    by the pool's default, and lets only a nonzero argument stand: the item
    handed to the queue carries [retries or self.request_retries], which is
    the default for [None] and for 0, the argument when it is not 0, and
    never 0 when the default is not 0.  With no connection waiting the item
    is the new tail of the queue. *)
Theorem pushRequest_zero_is_default (client_has : string → bool)
    (req : request) (retries : option Z) (s : state) :
  let d := next_handle s in
  let carried := or_default retries (request_retries s) in
  pushRequest client_has req retries s
  = (d, put client_has (req, d, carried)
          (set__pending (_pending s ++ [d])%list (set_next_handle (S d) s)))
  ∧ (queue_waiting s = [] →
       queue_pending (snd (pushRequest client_has req retries s))
       = (queue_pending s ++ [(req, d, carried)])%list)
  ∧ (retries = None ∨ retries = Some 0 → carried = request_retries s)
  ∧ (∀ n, retries = Some n → n ≠ 0 → carried = n)
  ∧ (request_retries s ≠ 0 → carried ≠ 0).
Proof.
  simpl. split; [reflexivity|]. split; [|split; [|split]].
  - intros Hw. unfold pushRequest. simpl. by rewrite put_no_waiter.
  - by intros [->| ->].
  - intros n -> Hn. simpl. by rewrite bool_decide_eq_false_2.
  - intros Hd. destruct retries as [n|]; simpl; [|done]. by case_bool_decide.
Qed.

Example push_zero_carries_default :
  queue_pending (snd (pushRequest sample_client get_request (Some 0)
                        (new_factory None 3 [] false)))
  = [(get_request, 0%nat, 3)]
  ∧ queue_pending (snd (pushRequest sample_client get_request (Some 7)
                          (new_factory None 3 [] false)))
    = [(get_request, 0%nat, 7)].
Proof. split; reflexivity. Qed.

(** C5: an item whose protocol is no longer registered when [_process]
    runs goes back through [queue.put] as the tuple it was: [_process] does
    nothing else and raises nothing.  With no other connection waiting the
    tuple becomes the tail of the queue and no other field of the pool
    changes: no attempt is recorded, nothing is decremented, the caller's
    Deferred does not fire and stays in [_pending].  A registered idle
    connection that then asks for work while the tuple is at the head
    receives it with the callbacks carrying the retries less the one of that
    dispatch. *)
Theorem stale_match_requeues_unchanged (client_has : string → bool)
    (proto : nat) (request : request) (deferred : nat) (retries : Z) (s : state) :
  proto ∉ _protos s →
  (∀ put', _process client_has put' proto (request, deferred, retries) s
           = (Ok (), put' (request, deferred, retries) s))
  ∧ (queue_waiting s = [] →
       put client_has (request, deferred, retries) s
       = set_queue_pending (queue_pending s ++ [(request, deferred, retries)])%list s)
  ∧ (∀ q, queue_waiting s = [] → queue_pending s = [] →
          q ∈ _protos s → p_deferred (proto_at s q) = None →
          client_has (method request) = true →
          let s' := submitRequest client_has q
                      (put client_has (request, deferred, retries) s) in
          queue_pending s' = []
          ∧ p_deferred (proto_at s' q)
            = Some (Call request (Some (request, deferred, retries - 1)))
          ∧ attempts deferred s' = S (attempts deferred s)
          ∧ handles s' = handles s ∧ _pending s' = _pending s).
Proof.
  intros Hstale. split; [|split].
  - intros put'. by apply _process_stale.
  - apply put_no_waiter.
  - intros q Hw Hq Hin Hslot Hm. simpl.
    rewrite put_no_waiter by done. unfold submitRequest.
    cbn [queue_pending set_queue_pending]. rewrite Hq. cbn [app].
    unfold run_callback. rewrite _process_dispatch by done. simpl.
    split; [reflexivity|]. split; [by rewrite proto_at_update_eq|].
    split; [|done].
    unfold attempts. simpl. rewrite !List.filter_app, !length_app. simpl.
    rewrite bool_decide_eq_true_2 by done. simpl. lia.
Qed.

Lemma stale_match_requeues_unchanged_witness :
  (0%nat ∉ _protos stale_waiter)
  ∧ queue_waiting stale_waiter = [0%nat]
  ∧ _process sample_client (put sample_client) 0 (get_request, 0%nat, 2) stale_waiter
    = (Ok (), put sample_client (get_request, 0%nat, 2) stale_waiter).
Proof.
  assert (H : 0%nat ∉ _protos stale_waiter).
  { apply (bool_decide_unpack _). vm_compute. exact I. }
  split; [exact H|]. split; [reflexivity|].
  exact (proj1 (stale_match_requeues_unchanged sample_client 0 get_request 0 2
                  stale_waiter H) (put sample_client)).
Defined.

(** [clientIdle] on an empty queue: the protocol joins the waiters, and
    nothing but the member list, the waiters and the factory's own Deferred
    changes. *)
Lemma clientIdle_empty_queue client_has p v s :
  queue_pending s = [] →
  let s' := clientIdle client_has p v s in
  protos s' = protos s
  ∧ queue_waiting s' = (queue_waiting s ++ [p])%list
  ∧ queue_pending s' = []
  ∧ trace s' = trace s ∧ handles s' = handles s ∧ _pending s' = _pending s.
Proof.
  intros Hq. unfold clientIdle, submitRequest, _callback.
  case_bool_decide; simpl; rewrite Hq; simpl; destruct (f_deferred s); done.
Qed.

(** [clientIdle] on a queue that is not empty: the protocol, its slot
    empty, is handed the head item. *)
Lemma clientIdle_dispatch client_has p v req d r rest s :
  queue_pending s = (req, d, r) :: rest →
  p_deferred (proto_at s p) = None → client_has (method req) = true →
  let s' := clientIdle client_has p v s in
  proto_at s' p = with_deferred (Some (Call req (Some (req, d, r - 1)))) (proto_at s p)
  ∧ queue_pending s' = rest
  ∧ queue_waiting s' = queue_waiting s
  ∧ trace s' = (trace s ++ [EvAttempt p d; EvCall p (method req) (args req)])%list
  ∧ handles s' = handles s ∧ _pending s' = _pending s.
Proof.
  intros Hq Hslot Hm. unfold clientIdle, submitRequest.
  assert (Hcb : ∀ s0, proto_at (_callback v s0) p = proto_at s0 p
                      ∧ queue_pending (_callback v s0) = queue_pending s0
                      ∧ queue_waiting (_callback v s0) = queue_waiting s0
                      ∧ trace (_callback v s0) = trace s0
                      ∧ handles (_callback v s0) = handles s0
                      ∧ _pending (_callback v s0) = _pending s0).
  { intros s0. unfold _callback. by destruct (f_deferred s0). }
  case_bool_decide as Hp; cbn [queue_pending set__protos]; rewrite Hq;
    unfold run_callback; rewrite _process_dispatch; try done;
    try (simpl; apply elem_of_app; right; by apply list_elem_of_singleton);
    destruct (Hcb (snd (Ok (), update_proto p
                          (with_deferred (Some (Call req (Some (req, d, r - 1)))))
                          (log (EvCall p (method req) (args req))
                             (log (EvAttempt p d)
                                (set_queue_pending rest
                                   (if bool_decide (p ∈ _protos s) then s
                                    else set__protos (_protos s ++ [p]) s)))))))
      as (E1 & E2 & E3 & E4 & E5 & E6).
  - rewrite bool_decide_eq_true_2 in E1, E2, E3, E4, E5, E6 by done.
    rewrite E1, E2, E3, E4, E5, E6. simpl. rewrite proto_at_update_eq.
    repeat split; try done. by rewrite <- app_assoc.
  - rewrite bool_decide_eq_false_2 in E1, E2, E3, E4, E5, E6 by done.
    rewrite E1, E2, E3, E4, E5, E6. simpl. rewrite proto_at_update_eq.
    repeat split; try done. by rewrite <- app_assoc.
Qed.

(** C7: whatever the outcome of the remote call, [_complete] empties the
    slot of the handler, reports the handler idle to the pool with
    [clientIdle] and passes the outcome on; the state it leaves does not
    depend on the outcome.  The handler is a member of the pool afterwards.
    When the queue is empty the handler is left waiting for work with its
    slot empty: it accepts one submission and refuses the next with
    [ClientBusy].  When the queue is not empty the handler is handed the
    head item in the same step.  [call_finished] runs [_complete] first for
    every outcome, so the handler is registered after every finished
    call. *)
Theorem complete_reports_idle_whatever_the_outcome (client_has : string → bool)
    (p : nat) (o : outcome) (s : state) :
  let emptied := update_proto p (with_deferred None) s in
  let s' := snd (_complete client_has p o s) in
  _complete client_has p o s = (Ok o, clientIdle client_has p (VBool true) emptied)
  ∧ p_deferred (proto_at emptied p) = None
  ∧ (∀ o', snd (_complete client_has p o' s) = s')
  ∧ p ∈ _protos s'
  ∧ (queue_pending s = [] →
       p_deferred (proto_at s' p) = None
       ∧ queue_waiting s' = (queue_waiting s ++ [p])%list
       ∧ ∀ req, client_has (method req) = true →
           ∃ s'', proto_submitRequest client_has p req s' = (Ok (), s'')
                  ∧ p_deferred (proto_at s'' p) = Some (Call req None)
                  ∧ ∀ req', proto_submitRequest client_has p req' s''
                            = (Raise ClientBusy, s''))
  ∧ (∀ req d r rest, queue_pending s = (req, d, r) :: rest →
       client_has (method req) = true →
       p_deferred (proto_at s' p) = Some (Call req (Some (req, d, r - 1)))
       ∧ queue_pending s' = rest)
  ∧ (∀ c, p_deferred (proto_at s p) = Some c →
       p ∈ _protos (call_finished client_has p o s)).
Proof.
  simpl.
  assert (Hreg : ∀ s0, p ∈ _protos (clientIdle client_has p (VBool true) s0)).
  { intros s0. rewrite clientIdle_registered. case_bool_decide; [done|].
    apply elem_of_app. right. by apply list_elem_of_singleton. }
  assert (Hempty : p_deferred (proto_at (update_proto p (with_deferred None) s) p) = None).
  { by rewrite proto_at_update_eq. }
  split; [reflexivity|]. split; [exact Hempty|].
  split; [reflexivity|]. split; [apply Hreg|]. split; [|split].
  - intros Hq.
    destruct (clientIdle_empty_queue client_has p (VBool true)
                (update_proto p (with_deferred None) s) Hq)
      as (Hprotos & Hw & _).
    set (s' := clientIdle client_has p (VBool true) (update_proto p (with_deferred None) s))
      in *.
    assert (Hslot : p_deferred (proto_at s' p) = None).
    { unfold proto_at. rewrite Hprotos. exact Hempty. }
    split; [exact Hslot|]. split; [exact Hw|].
    intros req Hm. by apply submit_once.
  - intros req d r rest Hq Hm.
    destruct (clientIdle_dispatch client_has p (VBool true) req d r rest
                (update_proto p (with_deferred None) s) Hq Hempty Hm)
      as (Hp & Hq' & _).
    split; [|exact Hq']. cbn [snd _complete]. unfold _complete, bind, lift, ret.
    cbn [snd]. rewrite Hp. reflexivity.
  - intros c Hc. unfold call_finished. rewrite Hc. unfold fire_call.
    unfold _complete, bind, lift, ret.
    set (s1 := clientIdle client_has p (VBool true) _).
    destruct (call_pool_args c) as [[[req d] r]|]; [|apply Hreg].
    destruct o as [v|e].
    + apply (stable_reqSuccess _ (stable_registered (λ l, p ∈ l))), Hreg.
    + apply (stable_reqError _ (stable_registered (λ l, p ∈ l))); [|apply Hreg].
      intros obj s2. apply (stable_put client_has _ (stable_registered (λ l, p ∈ l))).
Qed.

Example complete_after_failure_waits :
  let s' := snd (_complete sample_client 0 (Fail TTransportException) (pushed_with 2)) in
  p_deferred (proto_at (pushed_with 2) 0)
  = Some (Call get_request (Some (get_request, 0%nat, 1)))
  ∧ fst (_complete sample_client 0 (Fail TTransportException) (pushed_with 2))
    = Ok (Fail TTransportException)
  ∧ p_deferred (proto_at s' 0) = None
  ∧ queue_waiting s' = [0%nat].
Proof. vm_compute. repeat split. Qed.

(** ** The handshake *)

Section HandshakeFacts.
Context (client_has : string → bool) (VERSION : string).


Lemma foldl_log_fields made s :
  let s' := foldl (λ s e, log e s) s made in
  protos s' = protos s ∧ _protos s' = _protos s ∧ f_deferred s' = f_deferred s
  ∧ queue_pending s' = queue_pending s ∧ queue_waiting s' = queue_waiting s
  ∧ trace s' = (trace s ++ made)%list.
Proof.
  revert s. induction made as [|e made IH]; intros s; simpl.
  { by rewrite app_nil_r. }
  destruct (IH (log e s)) as (-> & -> & -> & -> & -> & ->). simpl.
  by rewrite <- app_assoc.
Qed.

(** The chain of callbacks that [setupConnection] builds does what the
    ordered steps do. *)
Lemma setupConnection_runs_steps p rp s :
  setupConnection VERSION p rp s
  = (snd (run_steps VERSION p rp (handshake_steps (proto_at s p)) (VBool true)),
     foldl (λ s e, log e s) s
       (fst (run_steps VERSION p rp (handshake_steps (proto_at s p)) (VBool true)))).
Proof.
  unfold setupConnection, Authenticated_setupConnection, Managed_setupConnection,
    setup_callbacks, handshake_steps.
  change (proto_at (log ?e s) p) with (proto_at s p).
  destruct (p_class (proto_at s p)), (p_check_api_version (proto_at s p)),
    (truthy_keyspace (p_keyspace (proto_at s p))); simpl;
    repeat match goal with
           | |- context [login_reply rp] => destruct (login_reply rp); simpl
           | |- context [describe_version_reply rp] =>
               destruct (describe_version_reply rp); simpl
           | |- context [gotVersion VERSION ?v] => destruct (gotVersion VERSION v); simpl
           | |- context [set_keyspace_reply rp] => destruct (set_keyspace_reply rp); simpl
           end; reflexivity.
Qed.

End HandshakeFacts.



(** ** The version check *)

(** C4: [match_thrift_version] accepts a pair of versions exactly when
    the major numbers are equal and the remote minor number is at least the
    local one; the patch numbers play no part.  With the local version
    2.1.0 it accepts the remote 2.3.1 and rejects 3.0.0 and 2.0.0.  When the
    check is enabled, a pair it rejects makes [gotVersion] raise
    [APIMismatch], and the handshake of a handler whose login, if it has
    one, succeeded fails with that error. *)
Theorem version_check_accepts_iff (VERSION : string) :
  (∀ oM om op rM rm rp : nat,
     Version.match_thrift_version (Version.version_string oM om op)
                                  (Version.version_string rM rm rp)
     = Ok (bool_decide (rM = oM ∧ (om ≤ rm)%nat)))
  ∧ Version.match_thrift_version "2.1.0" "2.3.1" = Ok true
  ∧ Version.match_thrift_version "2.1.0" "3.0.0" = Ok false
  ∧ Version.match_thrift_version "2.1.0" "2.0.0" = Ok false
  ∧ (∀ remote, Version.match_thrift_version VERSION remote = Ok false →
       gotVersion VERSION (VStr remote) = Raise (APIMismatch remote VERSION))
  ∧ (∀ remote, Version.match_thrift_version VERSION remote = Ok true →
       gotVersion VERSION (VStr remote) = Ok (VBool true))
  ∧ (∀ p rp s remote,
       p_check_api_version (proto_at s p) = true →
       (∀ credentials, p_class (proto_at s p) = Authenticated credentials →
                       ∃ v, login_reply rp = Succ v) →
       describe_version_reply rp = Succ (VStr remote) →
       Version.match_thrift_version VERSION remote = Ok false →
       fst (setupConnection VERSION p rp s) = Fail (APIMismatch remote VERSION)).
Proof.
  split; [|split; [|split; [|split; [|split; [|split]]]]]; try reflexivity.
  - intros. rewrite match_version_strings. f_equal.
    repeat case_bool_decide; simpl; try reflexivity; tauto.
  - intros remote H. unfold gotVersion. by rewrite H.
  - intros remote H. unfold gotVersion. by rewrite H.
  - intros p rp s remote Hcheck Hlogin Hreply Hmatch.
    rewrite setupConnection_runs_steps. unfold handshake_steps. rewrite Hcheck.
    assert (Hv : step_outcome VERSION rp StepVersionCheck = Fail (APIMismatch remote VERSION)).
    { unfold step_outcome, gotVersion. by rewrite Hreply, Hmatch. }
    destruct (p_class (proto_at s p)) as [|credentials] eqn:Hclass.
    + cbn [app run_steps]. by rewrite Hv.
    + destruct (Hlogin credentials eq_refl) as [v Hl].
      cbn [app run_steps]. unfold step_outcome at 1. rewrite Hl. cbn [run_steps].
      rewrite Hv. reflexivity.
Qed.

Example newer_major_fails_handshake :
  let s := step sample_client "19.4.0" (Connected newer_remote)
             (new_factory (Some "ks") 0 [("user", "secret")] true) in
  _protos s = []
  ∧ f_deferred s = FiredWith (Fail (APIMismatch "20.0.0" "19.4.0"))
  ∧ p_transport (proto_at s 0) = Some false
  ∧ trace s = [EvCall 0 "login" [VDict [("user", "secret")]];
               EvCall 0 "describe_version" []].
Proof. vm_compute. repeat split. Qed.

(** ** Shutdown *)

Lemma lose_if_any_spec p s :
  ∃ s', lose_if_any p s = (Ok (), s')
        ∧ p_transport (proto_at s' p) ≠ Some true
        ∧ (∀ q, p_transport (proto_at s q) ≠ Some true →
                p_transport (proto_at s' q) ≠ Some true)
        ∧ _protos s' = _protos s ∧ _pending s' = _pending s ∧ handles s' = handles s
        ∧ continueTrying s' = continueTrying s ∧ next_handle s' = next_handle s.
Proof.
  unfold lose_if_any, loseConnection, ret.
  destruct (p_transport (proto_at s p)) as [b|] eqn:Ht.
  - rewrite bool_decide_eq_true_2 by eauto. eexists. split; [reflexivity|].
    split; [by rewrite proto_at_update_eq|]. split; [|done].
    intros q Hq. destruct (decide (p = q)) as [->|Hne].
    + by rewrite proto_at_update_eq.
    + by rewrite proto_at_update_ne.
  - rewrite bool_decide_eq_false_2 by by intros [? ?]. exists s.
    split; [reflexivity|]. split; [by rewrite Ht|]. done.
Qed.

Lemma for_each_lose_spec ps s :
  ∃ s', for_each ps lose_if_any s = (Ok (), s')
        ∧ (∀ p, p ∈ ps → p_transport (proto_at s' p) ≠ Some true)
        ∧ (∀ q, p_transport (proto_at s q) ≠ Some true →
                p_transport (proto_at s' q) ≠ Some true)
        ∧ _protos s' = _protos s ∧ _pending s' = _pending s ∧ handles s' = handles s
        ∧ continueTrying s' = continueTrying s ∧ next_handle s' = next_handle s.
Proof.
  revert s. induction ps as [|p ps IH]; intros s.
  { exists s. split; [reflexivity|]. split; [by intros p ?%elem_of_nil|]. done. }
  destruct (lose_if_any_spec p s) as (s1 & E1 & Hp & Hmono1 & A1 & A2 & A3 & A4 & A5).
  destruct (IH s1) as (s2 & E2 & Hps & Hmono2 & B1 & B2 & B3 & B4 & B5).
  exists s2. split; [simpl; unfold bind; by rewrite E1|].
  split; [|split; [by auto|]].
  - intros q [->|Hq]%elem_of_cons; auto.
  - by rewrite B1, B2, B3, B4, B5.
Qed.

Lemma for_each_errback_spec err ds s :
  ∃ s', for_each ds (errback_unless_called err) s = (Ok (), s')
        ∧ (∀ d, handles s' !! d
                = match handles s !! d with
                  | Some o => Some o
                  | None => if bool_decide (d ∈ ds)
                            then Some (Fail (failure_value err)) else None
                  end)
        ∧ protos s' = protos s ∧ _protos s' = _protos s ∧ _pending s' = _pending s
        ∧ continueTrying s' = continueTrying s ∧ next_handle s' = next_handle s.
Proof.
  revert s. induction ds as [|d ds IH]; intros s.
  { exists s. split; [reflexivity|]. split; [|done].
    intros d. destruct (handles s !! d); [done|].
    by rewrite bool_decide_eq_false_2 by apply not_elem_of_nil. }
  assert (∃ s1, errback_unless_called err d s = (Ok (), s1)
                ∧ (∀ d', handles s1 !! d'
                         = match handles s !! d' with
                           | Some o => Some o
                           | None => if bool_decide (d' = d)
                                     then Some (Fail (failure_value err)) else None
                           end)
                ∧ protos s1 = protos s ∧ _protos s1 = _protos s ∧ _pending s1 = _pending s
                ∧ continueTrying s1 = continueTrying s ∧ next_handle s1 = next_handle s)
    as (s1 & E1 & Hh1 & A1 & A2 & A3 & A4 & A5).
  { unfold errback_unless_called, called, errback, fire, ret.
    destruct (handles s !! d) as [o|] eqn:Hd.
    - rewrite bool_decide_eq_true_2 by eauto. exists s. split; [reflexivity|].
      split; [|done]. intros d'. destruct (handles s !! d') eqn:Hd'; [done|].
      rewrite bool_decide_eq_false_2; [done|]. intros ->. congruence.
    - rewrite bool_decide_eq_false_2 by by intros [? ?]. simpl.
      eexists. split; [reflexivity|]. split; [|done].
      intros d'. simpl. destruct (decide (d' = d)) as [->|Hne].
      + by rewrite lookup_insert_eq, Hd, bool_decide_eq_true_2.
      + rewrite lookup_insert_ne by done.
        destruct (handles s !! d'); [done|]. by rewrite bool_decide_eq_false_2. }
  destruct (IH s1) as (s2 & E2 & Hh2 & B1 & B2 & B3 & B4 & B5).
  exists s2. split; [simpl; unfold bind; by rewrite E1|].
  split; [|by rewrite B1, B2, B3, B4, B5].
  intros d'. rewrite Hh2, Hh1. destruct (handles s !! d'); [done|].
  destruct (decide (d' = d)) as [->|Hne].
  - rewrite bool_decide_eq_true_2 by done.
    by rewrite bool_decide_eq_true_2 by by apply elem_of_cons; left.
  - rewrite (bool_decide_eq_false_2 (d' = d)) by done.
    destruct (decide (d' ∈ ds)) as [Hin|Hout].
    + rewrite !bool_decide_eq_true_2; [done| |done]. by apply elem_of_cons; right.
    + rewrite !bool_decide_eq_false_2; [done| |done].
      by intros [?|?]%elem_of_cons.
Qed.

Lemma shutdown_unfold s :
  shutdown s
  = (stopTrying ;;
     (λ s, for_each (_protos s) lose_if_any s) ;;
     (λ s, for_each (_pending s)
             (errback_unless_called (PExn (UserError "Shutdown requested"))) s)) s.
Proof. reflexivity. Qed.

(** What [shutdown] leaves. *)
Lemma shutdown_spec s :
  ∃ s', shutdown s = (Ok (), s')
        ∧ continueTrying s' = false
        ∧ (∀ p, p ∈ _protos s → p_transport (proto_at s' p) ≠ Some true)
        ∧ (∀ d, handles s' !! d
                = match handles s !! d with
                  | Some o => Some o
                  | None => if bool_decide (d ∈ _pending s)
                            then Some (Fail (UserError "Shutdown requested")) else None
                  end)
        ∧ _protos s' = _protos s ∧ _pending s' = _pending s
        ∧ next_handle s' = next_handle s.
Proof.
  rewrite shutdown_unfold. unfold stopTrying, bind, lift.
  destruct (for_each_lose_spec (_protos (set_continueTrying false s))
              (set_continueTrying false s))
    as (s1 & E1 & Hps & _ & A1 & A2 & A3 & A4 & A5).
  rewrite E1.
  destruct (for_each_errback_spec (PExn (UserError "Shutdown requested")) (_pending s1) s1)
    as (s2 & E2 & Hh & B1 & B2 & B3 & B4 & B5).
  rewrite E2. exists s2. split; [reflexivity|].
  split; [by rewrite B4, A4|]. split; [|split].
  - intros p Hp. rewrite (proto_at_same_protos _ _ p B1). by apply Hps.
  - intros d. rewrite Hh, A3, A2. reflexivity.
  - by rewrite B2, A1, B3, A2, B5, A5.
Qed.

Lemma update_proto_same p f s :
  is_Some (protos s !! p) → f (proto_at s p) = proto_at s p → update_proto p f s = s.
Proof.
  intros [o Ho] Hf. unfold update_proto. rewrite Hf. unfold proto_at. rewrite Ho. simpl.
  destruct s. unfold set_protos. simpl in *. f_equal. by apply insert_id.
Qed.

Lemma lose_if_any_quiet p s :
  p_transport (proto_at s p) ≠ Some true → lose_if_any p s = (Ok (), s).
Proof.
  intros Ht. unfold lose_if_any, loseConnection, ret.
  destruct (p_transport (proto_at s p)) as [[]|] eqn:E; [done| |].
  - rewrite bool_decide_eq_true_2 by eauto. f_equal. apply update_proto_same.
    + unfold proto_at in E. destruct (protos s !! p); [eauto|discriminate].
    + destruct (proto_at s p). simpl in *. by rewrite E.
  - by rewrite bool_decide_eq_false_2 by by intros [? ?].
Qed.

Lemma for_each_noop {A} (body : A → M unit) l s :
  (∀ x, x ∈ l → body x s = (Ok (), s)) → for_each l body s = (Ok (), s).
Proof.
  induction l as [|x l IH]; intros H; simpl; [reflexivity|].
  unfold bind. rewrite H by by apply elem_of_cons; left.
  apply IH. intros y Hy. apply H. by apply elem_of_cons; right.
Qed.

(** At rest, [shutdown] changes nothing. *)
Lemma shutdown_quiet s : quiet s → shutdown s = (Ok (), s).
Proof.
  intros [Hc Ht Hp]. rewrite shutdown_unfold. unfold stopTrying, bind, lift.
  assert (set_continueTrying false s = s) as ->.
  { destruct s. simpl in *. by subst. }
  rewrite for_each_noop by (intros p Hin; by apply lose_if_any_quiet, Ht).
  rewrite for_each_noop; [reflexivity|].
  intros d Hd. unfold errback_unless_called, called.
  by rewrite bool_decide_eq_true_2 by by apply Hp.
Qed.

Lemma reachable_run client_has VERSION inputs s :
  reachable client_has VERSION s → reachable client_has VERSION (run client_has VERSION inputs s).
Proof.
  revert s. induction inputs as [|i inputs IH]; intros s Hs; simpl; [done|].
  apply IH. by apply reachable_step.
Qed.

(** C3: [shutdown], in any state a pool can reach, raises nothing and
    leaves the pool with reconnection disabled ([continueTrying] false) and
    every registered handler's transport closed: no registered handler has
    a connected transport.  Every Deferred that [pushRequest] has handed out
    and that had not fired has fired with the shutdown error, once; every
    Deferred that had fired keeps its result and is not fired again.  A
    second [shutdown] raises nothing and changes nothing. *)
Theorem shutdown_fails_pending_once (client_has : string → bool) (VERSION : string)
    (s : state) :
  reachable client_has VERSION s →
  let s' := snd (shutdown s) in
  fst (shutdown s) = Ok ()
  ∧ continueTrying s' = false
  ∧ _protos s' = _protos s
  ∧ (∀ p, p ∈ _protos s' → p_transport (proto_at s' p) ≠ Some true)
  ∧ (∀ d, (d < next_handle s)%nat → handles s !! d = None →
          handles s' !! d = Some (Fail (UserError "Shutdown requested"))
          ∧ deliveries d s' = 1%nat)
  ∧ (∀ d o, handles s !! d = Some o →
            handles s' !! d = Some o ∧ deliveries d s' = 1%nat
            ∧ deliveries d s = 1%nat)
  ∧ (∀ d inputs, (d < next_handle s)%nat → handles s !! d = None →
       handles (run client_has VERSION inputs s') !! d
       = Some (Fail (UserError "Shutdown requested"))
       ∧ deliveries d (run client_has VERSION inputs s') = 1%nat)
  ∧ shutdown s' = (Ok (), s').
Proof.
  intros Hr. simpl.
  pose proof (reachable_ok _ _ _ Hr) as Hok.
  pose proof (shutdown_ok s Hok) as Hok'.
  assert (Hr' : reachable client_has VERSION (snd (shutdown s))).
  { exact (reachable_step client_has VERSION Shutdown s Hr). }
  destruct (shutdown_spec s) as (s' & E & Hc & Ht & Hh & Hreg & Hpend & Hnext).
  rewrite E in *. cbn [fst snd] in *.
  destruct Hok as [_ [Hcover Honce]]. destruct Hok' as [_ [_ Honce']].
  assert (Hfired : ∀ d, (d < next_handle s)%nat → handles s !! d = None →
                        handles s' !! d = Some (Fail (UserError "Shutdown requested"))).
  { intros d Hlt Hnone. rewrite Hh, Hnone.
    by rewrite bool_decide_eq_true_2 by by apply Hcover. }
  split; [reflexivity|]. split; [exact Hc|]. split; [exact Hreg|].
  split; [by rewrite Hreg|]. split; [|split; [|split]].
  - intros d Hlt Hnone. pose proof (Hfired d Hlt Hnone) as Hd.
    split; [exact Hd|]. rewrite Honce'. unfold called. rewrite Hd.
    by rewrite bool_decide_eq_true_2 by eauto.
  - intros d o Hd.
    assert (Hd' : handles s' !! d = Some o) by by rewrite Hh, Hd.
    split; [exact Hd'|]. rewrite Honce', Honce. unfold called. rewrite Hd, Hd'.
    by rewrite !bool_decide_eq_true_2 by eauto.
  - intros d inputs Hlt Hnone.
    pose proof (kept_run client_has VERSION _ (kept_result d _) inputs s'
                  (Hfired d Hlt Hnone)) as Hlater.
    split; [exact Hlater|].
    destruct (reachable_ok _ _ _ (reachable_run client_has VERSION inputs s' Hr'))
      as [_ [_ Honce'']].
    rewrite Honce''. unfold called. rewrite Hlater.
    by rewrite bool_decide_eq_true_2 by eauto.
  - apply shutdown_quiet. split; [exact Hc|by rewrite Hreg|].
    intros d Hd. rewrite Hh. destruct (handles s !! d); [eauto|].
    rewrite bool_decide_eq_true_2; [eauto|]. by rewrite <- Hpend.
Qed.

Lemma shutdown_fails_pending_once_witness :
  reachable sample_client "19.4.0" one_busy_one_queued
  ∧ fst (shutdown one_busy_one_queued) = Ok ()
  ∧ continueTrying (snd (shutdown one_busy_one_queued)) = false.
Proof.
  assert (H : reachable sample_client "19.4.0" one_busy_one_queued).
  { apply reachable_run, one_idle_reachable. }
  split; [exact H|].
  pose proof (shutdown_fails_pending_once sample_client "19.4.0" one_busy_one_queued H)
    as (H1 & H2 & _).
  split; [exact H1|exact H2].
Defined.

(** ** Retries *)


(** The class tests of [reqError] are on the object the errback is handed.
    On the exception itself they single out the two errors that are not to
    be retried; on the Failure that a Deferred hands to an errback they are
    both false, and only the count decides. *)
Lemma reqError_on_exception put' e req d r :
  reqError put' (PExn e) req d r
  = if bool_decide (class_of_exn e = ClsInvalidRequestException)
       || bool_decide (class_of_exn e = ClsInvalidThriftRequest)
       || bool_decide (r < 1)
    then errback d (PExn e) ;; pending_remove d
    else lift (put' (req, d, r)).
Proof. reflexivity. Qed.

Lemma reqError_on_failure put' e req d r :
  reqError put' (PFailure e) req d r
  = if bool_decide (r < 1)
    then errback d (PFailure e) ;; pending_remove d
    else lift (put' (req, d, r)).
Proof. reflexivity. Qed.

Section RetryFacts.
Context (client_has : string → bool).

Lemma attempts_log d e s :
  attempts d (log e s) = (attempts d s + if is_attempt d e then 1 else 0)%nat.
Proof.
  unfold attempts. simpl. rewrite List.filter_app, length_app. simpl.
  by destruct (is_attempt d e).
Qed.

(** After [_complete] the protocol waits alone for work. *)
Lemma _complete_in_flight s p req d r k o :
  in_flight client_has s p req d r k →
  let s1 := snd (_complete client_has p o s) in
  p ∈ _protos s1 ∧ p_deferred (proto_at s1 p) = None
  ∧ queue_pending s1 = [] ∧ queue_waiting s1 = [p]
  ∧ handles s1 = handles s ∧ _pending s1 = _pending s ∧ trace s1 = trace s.
Proof.
  intros [Hm Hin Hslot Hq Hw Hd Hpe Hk]. simpl.
  destruct (clientIdle_empty_queue client_has p (VBool true)
              (update_proto p (with_deferred None) s) Hq)
    as (E1 & E2 & E3 & E4 & E5 & E6).
  unfold _complete, bind, lift, ret. cbn [snd].
  split; [|split; [|split; [|split]]].
  - rewrite clientIdle_registered. simpl. by rewrite bool_decide_eq_true_2.
  - rewrite (proto_at_same_protos _ _ p E1). by rewrite proto_at_update_eq.
  - exact E3.
  - rewrite E2. simpl. by rewrite Hw.
  - by rewrite E4, E5, E6.
Qed.

(** A failure with retries left: the request is submitted again at once,
    to the same protocol, with one retry less. *)
Lemma failure_with_retries_left s p req d r k e :
  in_flight client_has s p req d r k → (1 ≤ r)%Z →
  in_flight client_has (call_finished client_has p (Fail e) s) p req d (r - 1) (S k).
Proof.
  intros Hf Hr. pose proof (_complete_in_flight s p req d r k (Fail e) Hf)
    as (Hin1 & Hslot1 & Hq1 & Hw1 & Hh1 & Hp1 & Ht1).
  destruct Hf as [Hm Hin Hslot Hq Hw Hd Hpe Hk].
  unfold call_finished. rewrite Hslot. unfold fire_call. cbn [call_pool_args].
  change (_complete client_has p (Fail e) s)
    with (Ok (Fail e), snd (_complete client_has p (Fail e) s)).
  set (s1 := snd (_complete client_has p (Fail e) s)) in *. cbv iota beta.
  rewrite reqError_on_failure. rewrite bool_decide_eq_false_2 by lia.
  unfold run_callback, lift. cbn [snd]. rewrite put_unfold, Hw1.
  unfold run_callback. rewrite _process_dispatch; [|done|done|done].
  cbn [snd]. split; try done.
  - by rewrite proto_at_update_eq.
  - simpl. by rewrite Hh1.
  - simpl. by rewrite Hp1.
  - rewrite <- Hk. unfold attempts. simpl. rewrite Ht1.
    rewrite !List.filter_app, !length_app. simpl.
    rewrite bool_decide_eq_true_2 by done. simpl. lia.
Qed.

(** A failure without retries left: the caller's Deferred fires with it,
    after no further attempt. *)
Lemma failure_without_retries_left s p req d r k e :
  in_flight client_has s p req d r k → (r < 1)%Z →
  let s' := call_finished client_has p (Fail e) s in
  handles s' !! d = Some (Fail e) ∧ attempts d s' = k
  ∧ p_deferred (proto_at s' p) = None ∧ queue_pending s' = [].
Proof.
  intros Hf Hr. pose proof (_complete_in_flight s p req d r k (Fail e) Hf)
    as (Hin1 & Hslot1 & Hq1 & Hw1 & Hh1 & Hp1 & Ht1).
  destruct Hf as [Hm Hin Hslot Hq Hw Hd Hpe Hk]. simpl.
  unfold call_finished. rewrite Hslot. unfold fire_call. cbn [call_pool_args].
  change (_complete client_has p (Fail e) s)
    with (Ok (Fail e), snd (_complete client_has p (Fail e) s)).
  set (s1 := snd (_complete client_has p (Fail e) s)) in *. cbv iota beta.
  rewrite reqError_on_failure. rewrite bool_decide_eq_true_2 by lia.
  unfold run_callback, bind, errback, fire, pending_remove. rewrite Hh1, Hd.
  destruct (list_remove_present d (_pending s) Hpe) as (l' & Hl' & _).
  cbn [_pending log set_handles]. rewrite Hp1, Hl'. cbn [snd].
  split; [simpl; by rewrite lookup_insert_eq|]. split; [|split].
  - rewrite <- Hk. unfold attempts. simpl. rewrite Ht1.
    rewrite List.filter_app, length_app. simpl. lia.
  - exact Hslot1.
  - exact Hq1.
Qed.

End RetryFacts.

Section RetryBudget.
Context (client_has : string → bool) (VERSION : string).

Lemma run_app l1 l2 s :
  run client_has VERSION (l1 ++ l2) s
  = run client_has VERSION l2 (run client_has VERSION l1 s).
Proof. unfold run. apply foldl_app. Qed.

(** [j] failures in a row while retries are left: [j] more attempts. *)
Lemma failures_while_retries_left p req d e (j : nat) r k s :
  in_flight client_has s p req d r k → (Z.of_nat j ≤ r)%Z →
  in_flight client_has (run client_has VERSION (replicate j (Finished p (Fail e))) s)
    p req d (r - Z.of_nat j) (k + j).
Proof.
  revert r k s. induction j as [|j IH]; intros r k s Hf Hj.
  { cbn [replicate]. unfold run. cbn [foldl].
    replace (r - Z.of_nat 0) with r by lia. by rewrite Nat.add_0_r. }
  cbn [replicate]. unfold run. cbn [foldl step]. fold (run client_has VERSION).
  replace (r - Z.of_nat (S j)) with ((r - 1) - Z.of_nat j) by lia.
  replace (k + S j)%nat with (S k + j)%nat by lia.
  apply IH; [|lia]. apply failure_with_retries_left; [done|lia].
Qed.

(** Pushing onto a pool whose only waiter is a registered idle protocol
    submits the request to it at once, the callbacks carrying the budget
    less one. *)
Lemma push_to_idle_pool p req (N : Z) s :
  client_has (method req) = true → N ≠ 0 →
  p ∈ _protos s → p_deferred (proto_at s p) = None →
  queue_pending s = [] → queue_waiting s = [p] →
  handles s !! next_handle s = None →
  in_flight client_has (snd (pushRequest client_has req (Some N) s))
    p req (next_handle s) (N - 1) (S (attempts (next_handle s) s)).
Proof.
  intros Hm HN Hin Hslot Hq Hw Hfresh.
  unfold pushRequest. cbn [snd or_default]. rewrite bool_decide_eq_false_2 by done.
  rewrite put_unfold. cbn [queue_waiting set__pending set_next_handle]. rewrite Hw.
  unfold run_callback. rewrite _process_dispatch; [|done|done|done].
  cbn [snd]. split; try done.
  - by rewrite proto_at_update_eq.
  - simpl. apply elem_of_app. right. by apply list_elem_of_singleton.
  - unfold attempts. simpl. rewrite !List.filter_app, !length_app. simpl.
    rewrite bool_decide_eq_true_2 by done. simpl. lia.
Qed.

(** The budget in general: a request pushed with [retries = N], N at
    least 1, onto an idle pool, every attempt of which fails, is given up
    at the N-th failure, after N attempts. *)
Lemma budget_of_N_is_N_attempts p req (N : Z) e s :
  client_has (method req) = true → (1 ≤ N)%Z →
  p ∈ _protos s → p_deferred (proto_at s p) = None →
  queue_pending s = [] → queue_waiting s = [p] →
  handles s !! next_handle s = None → attempts (next_handle s) s = 0%nat →
  let d := next_handle s in
  let s' := run client_has VERSION
              (Push req (Some N) :: replicate (Z.to_nat N) (Finished p (Fail e))) s in
  handles s' !! d = Some (Fail e) ∧ attempts d s' = Z.to_nat N.
Proof.
  intros Hm HN Hin Hslot Hq Hw Hfresh H0. simpl.
  pose proof (push_to_idle_pool p req N s Hm ltac:(lia) Hin Hslot Hq Hw Hfresh) as Hf.
  rewrite H0 in Hf.
  replace (Z.to_nat N) with (Z.to_nat (N - 1) + 1)%nat by lia.
  rewrite replicate_add, run_app.
  set (s1 := snd (pushRequest client_has req (Some N) s)) in *.
  pose proof (failures_while_retries_left p req (next_handle s) e (Z.to_nat (N - 1))
                (N - 1) 1 s1 Hf ltac:(lia)) as Hf'.
  set (s2 := run client_has VERSION _ s1) in *.
  cbn [replicate]. unfold run at 1. cbn [foldl step].
  destruct (failure_without_retries_left client_has s2 p req (next_handle s) _ _ e Hf'
              ltac:(lia)) as (H1 & H2 & _).
  split; [exact H1|].
  transitivity (1 + Z.to_nat (N - 1))%nat; [exact H2|lia].
Qed.

End RetryBudget.

(** ** The two scenarios of the specification, on the code *)

(** C1 on the code: a request pushed with [retries=2] onto a pool with one
    connection is attempted twice.  When both attempts fail with a
    transport fault, the second failure is delivered to the caller: the
    caller's Deferred has fired once, with the fault, no request is in
    flight or queued, and an answer that would have been the third
    attempt's finds nothing to answer.  The claim has the request succeed
    on a third attempt. *)
Theorem two_retries_give_two_attempts :
  let s := run sample_client "19.4.0"
             [Finished 0 (Fail TTransportException);
              Finished 0 (Fail TTransportException)]
             (pushed_with 2) in
  attempts 0 (pushed_with 2) = 1%nat
  ∧ attempts 0 s = 2%nat
  ∧ handles s !! 0%nat = Some (Fail TTransportException)
  ∧ deliveries 0 s = 1%nat
  ∧ p_deferred (proto_at s 0) = None
  ∧ queue_pending s = []
  ∧ step sample_client "19.4.0" (Finished 0 (Succ (VStr "value"))) s = s.
Proof. vm_compute. repeat split. Qed.

(** C2 on the code: the errback is handed a Failure, on which both class
    tests of [reqError] are false.  A request pushed with [retries=5] whose
    first attempt fails with [InvalidRequestException] is not given up: the
    caller's Deferred has not fired and the request has been submitted a
    second time.  The error reaches the caller at the fifth failure, after
    five attempts.  A request for a method the client does not have is put
    back into the queue as well, after its handler has been aborted. *)
Theorem invalid_request_is_retried :
  let bad := Finished 0 (Fail (InvalidRequestException "bad query")) in
  let once := run sample_client "19.4.0" [bad] (pushed_with 5) in
  let five := run sample_client "19.4.0" [bad; bad; bad; bad; bad] (pushed_with 5) in
  let unknown := run sample_client "19.4.0"
                   [Connected answers_well;
                    Push (ManagedThriftRequest "no_such_call" []) (Some 5)]
                   (new_factory None 0 [] false) in
  (handles once !! 0%nat = None
   ∧ attempts 0 once = 2%nat
   ∧ p_deferred (proto_at once 0)
     = Some (Call get_request (Some (get_request, 0%nat, 3))))
  ∧ (handles five !! 0%nat = Some (Fail (InvalidRequestException "bad query"))
     ∧ attempts 0 five = 5%nat)
  ∧ (handles unknown !! 0%nat = None
     ∧ queue_pending unknown = [(ManagedThriftRequest "no_such_call" [], 0%nat, 4)]
     ∧ p_aborted (proto_at unknown 0) = true
     ∧ p_transport (proto_at unknown 0) = Some false).
Proof. vm_compute. repeat split. Qed.

(** * Further properties of the module *)

(** ** Version strings that are not three integers *)

Section MalformedVersions.
Import Version.

Lemma split_without_dot s : no_dot s = true → split "." s = [s].
Proof.
  induction s as [|c s IH]; simpl; [reflexivity|].
  intros [Hc Hs]%andb_prop. apply negb_true_iff in Hc. rewrite Hc.
  by rewrite (IH Hs).
Qed.

Lemma py_int_raises_ValueError s e : py_int s = Raise e → e = ValueError.
Proof.
  assert (Hu : ∀ t, unsigned_literal t = Raise e → e = ValueError).
  { intros t. unfold unsigned_literal. destruct t; [congruence|].
    destruct (digits 0 _); congruence. }
  unfold py_int. destruct (strip s) as [|c t] eqn:E; [apply Hu|].
  destruct c as [[] [] [] [] [] [] [] []]; try apply Hu.
  destruct (unsigned_literal t) eqn:Et; [discriminate|].
  intros [= <-]. by apply (Hu t).
Qed.

Lemma triple_two_components a b :
  triple (decimal a ++ "." ++ decimal b) = Raise ValueError.
Proof.
  unfold triple. rewrite split_digits_dot, split_no_dot by apply decimal_all_digits.
  simpl. by rewrite !py_int_decimal.
Qed.

Lemma triple_four_components a b c d :
  triple (decimal a ++ "." ++ decimal b ++ "." ++ decimal c ++ "." ++ decimal d)
  = Raise ValueError.
Proof.
  unfold triple. rewrite !split_digits_dot, split_no_dot by apply decimal_all_digits.
  simpl. by rewrite !py_int_decimal.
Qed.

Lemma triple_bad_patch a b patch :
  no_dot patch = true → (∀ n, py_int patch ≠ Ok n) →
  triple (decimal a ++ "." ++ decimal b ++ "." ++ patch) = Raise ValueError.
Proof.
  intros Hdot Hbad. unfold triple.
  rewrite !split_digits_dot by apply decimal_all_digits.
  rewrite split_without_dot by done. simpl. rewrite !py_int_decimal.
  destruct (py_int patch) as [n|e] eqn:E; [by destruct (Hbad n)|].
  by rewrite (py_int_raises_ValueError _ _ E).
Qed.

End MalformedVersions.

(** X1: [match_thrift_version] raises [ValueError], whatever the local
    version is, when the remote version has two or four integer components
    instead of three, and when its third component is not an integer
    literal, although the patch number plays no part in the comparison.
    [gotVersion] passes that [ValueError] on, so the handshake fails with it
    and not with [APIMismatch]. *)
Theorem malformed_remote_version_raises_ValueError
    (ours : string) (a b c d : nat) (patch : string) :
  no_dot patch = true → (∀ n, Version.py_int patch ≠ Ok n) →
  let two := (Version.decimal a ++ "." ++ Version.decimal b)%string in
  let four := (Version.decimal a ++ "." ++ Version.decimal b ++ "."
               ++ Version.decimal c ++ "." ++ Version.decimal d)%string in
  let bad_patch := (Version.decimal a ++ "." ++ Version.decimal b ++ "." ++ patch)%string in
  Version.match_thrift_version ours two = Raise ValueError
  ∧ Version.match_thrift_version ours four = Raise ValueError
  ∧ Version.match_thrift_version ours bad_patch = Raise ValueError
  ∧ gotVersion ours (VStr two) = Raise ValueError
  ∧ gotVersion ours (VStr four) = Raise ValueError
  ∧ gotVersion ours (VStr bad_patch) = Raise ValueError.
Proof.
  intros Hdot Hbad. simpl. unfold gotVersion, Version.match_thrift_version.
  rewrite triple_two_components, triple_four_components.
  rewrite (triple_bad_patch a b patch Hdot Hbad). done.
Qed.

Lemma malformed_remote_version_raises_ValueError_witness :
  no_dot "0-SNAPSHOT" = true
  ∧ Version.match_thrift_version "19.4.0" "19.4.0-SNAPSHOT" = Raise ValueError.
Proof.
  split; [reflexivity|].
  refine (proj1 (proj2 (proj2 (malformed_remote_version_raises_ValueError
                                 "19.4.0" 19 4 0 0 "0-SNAPSHOT" eq_refl _)))).
  intros n H. vm_compute in H. discriminate.
Defined.

(** ** Invariants of the member list and of the callers' Deferreds *)

(** X2: in every state a pool can reach, no protocol is twice in the
    member list [_protos]: [clientIdle] appends a protocol only when it is
    absent, and nothing else adds to the list. *)
Theorem members_never_duplicated (client_has : string → bool) (VERSION : string)
    (s : state) :
  reachable client_has VERSION s → NoDup (_protos s).
Proof. intros Hr. by destruct (reachable_ok _ _ _ Hr). Qed.

Lemma members_never_duplicated_witness :
  reachable sample_client "19.4.0" one_busy_one_queued
  ∧ NoDup (_protos one_busy_one_queued).
Proof.
  assert (H : reachable sample_client "19.4.0" one_busy_one_queued).
  { apply reachable_run, one_idle_reachable. }
  split; [exact H|].
  exact (members_never_duplicated sample_client "19.4.0" one_busy_one_queued H).
Defined.

(** X3: in every state a pool can reach, a caller's Deferred has fired at
    most once, and has fired exactly when it has a result; a Deferred that
    [pushRequest] has handed out and that has not fired is in [_pending];
    and whatever happens to the pool afterwards, a result once delivered is
    never replaced and never delivered again. *)
Theorem deferred_fires_at_most_once (client_has : string → bool) (VERSION : string)
    (s : state) (d : nat) :
  reachable client_has VERSION s →
  (deliveries d s ≤ 1)%nat
  ∧ (deliveries d s = 1%nat ↔ is_Some (handles s !! d))
  ∧ ((d < next_handle s)%nat → handles s !! d = None → d ∈ _pending s)
  ∧ (∀ o inputs, handles s !! d = Some o →
       handles (run client_has VERSION inputs s) !! d = Some o
       ∧ deliveries d (run client_has VERSION inputs s) = 1%nat).
Proof.
  intros Hr. destruct (reachable_ok _ _ _ Hr) as [_ [Hcover Honce]].
  assert (Hiff : deliveries d s = 1%nat ↔ is_Some (handles s !! d)).
  { rewrite Honce. unfold called. case_bool_decide; split; try done. }
  split; [rewrite Honce; by destruct (called s d); lia|].
  split; [exact Hiff|]. split; [apply Hcover|].
  intros o inputs Hd.
  pose proof (kept_run client_has VERSION _ (kept_result d o) inputs s Hd) as Hlater.
  split; [exact Hlater|].
  destruct (reachable_ok _ _ _ (reachable_run client_has VERSION inputs s Hr))
    as [_ [_ Honce']].
  rewrite Honce'. unfold called. rewrite Hlater.
  by rewrite bool_decide_eq_true_2 by eauto.
Qed.

Lemma deferred_fires_at_most_once_witness :
  reachable sample_client "19.4.0" one_busy_one_queued
  ∧ (deliveries 0 one_busy_one_queued ≤ 1)%nat.
Proof.
  assert (H : reachable sample_client "19.4.0" one_busy_one_queued).
  { apply reachable_run, one_idle_reachable. }
  split; [exact H|].
  exact (proj1 (deferred_fires_at_most_once sample_client "19.4.0"
                  one_busy_one_queued 0 H)).
Defined.

(** ** The queue and the factory's own Deferred *)

Section Core.
Context (client_has : string → bool) (VERSION : string).

Lemma core_submit p req s : core (snd (proto_submitRequest client_has p req s)) = core s.
Proof.
  unfold proto_submitRequest. destruct (p_deferred _); [done|].
  by destruct (client_has _).
Qed.

Lemma core_abort p s : core (snd (abort p s)) = core s.
Proof.
  unfold abort, bind, lift, loseConnection. simpl. by destruct (p_transport _).
Qed.

Lemma core_settle d o s : core (run_callback (fire d o ;; pending_remove d) s) = core s.
Proof.
  destruct (settle_fields d o s) as (_ & _ & E1 & E2 & _ & _ & E3).
  unfold core. by rewrite E1, E2, E3.
Qed.

(** [_process] leaves the queue and the factory's Deferred alone, or ends
    with one call of [put] in a state in which they are what they were. *)
Lemma _process_shape put' p it s :
  core (run_callback (_process client_has put' p it) s) = core s
  ∨ ∃ it' s1, core s1 = core s
              ∧ run_callback (_process client_has put' p it) s = put' it' s1.
Proof.
  destruct it as [[req d] r]. unfold run_callback, _process.
  destruct (negb _); [right; by exists (req, d, r), s|].
  unfold bind, try_except, lift, ret.
  pose proof (core_submit p req (log (EvAttempt p d) s)) as Hsub.
  change (core (log (EvAttempt p d) s)) with (core s) in Hsub.
  destruct (proto_submitRequest client_has p req (log (EvAttempt p d) s))
    as [[[]|e] s1]; cbn [fst snd] in *.
  - by left.
  - pose proof (core_abort p s1) as Hab.
    destruct (abort p s1) as [[[]|e'] s2]; cbn [fst snd] in *; [|left; congruence].
    unfold reqError. destruct (_ || _).
    + left. unfold errback. rewrite (core_settle d _ s2). congruence.
    + right. exists (req, d, r - 1), s2. split; [congruence|reflexivity].
Qed.

Lemma put_from_f_deferred ws obj s :
  f_deferred (put_from client_has ws obj s) = f_deferred s.
Proof.
  revert obj s. induction ws as [|w ws IH]; intros obj s; simpl; [done|].
  destruct (_process_shape (put_from client_has ws) w obj (set_queue_waiting ws s))
    as [E|(it' & s1 & E & ->)].
  - by injection E.
  - rewrite IH. by injection E.
Qed.

(** Never both: a request in the queue and a protocol waiting for one. *)
Lemma put_from_never_both ws obj s :
  queue_waiting s = ws → queue_pending s = [] ∨ ws = [] →
  queue_pending (put_from client_has ws obj s) = []
  ∨ queue_waiting (put_from client_has ws obj s) = [].
Proof.
  revert obj s. induction ws as [|w ws IH]; intros obj s Hw Hq; simpl.
  { by right. }
  destruct Hq as [Hq|?]; [|done].
  destruct (_process_shape (put_from client_has ws) w obj (set_queue_waiting ws s))
    as [E|(it' & s1 & E & ->)].
  - left. injection E as E1 _ _. by rewrite E1.
  - injection E as E1 E2 _. apply IH; [done|]. left. by rewrite E1.
Qed.

Lemma put_never_both obj s :
  queue_pending s = [] ∨ queue_waiting s = [] →
  queue_pending (put client_has obj s) = [] ∨ queue_waiting (put client_has obj s) = [].
Proof. intros H. by apply put_from_never_both. Qed.

Lemma submitRequest_f_deferred p s :
  f_deferred (submitRequest client_has p s) = f_deferred s.
Proof.
  unfold submitRequest. destruct (queue_pending s) as [|obj rest]; [done|].
  destruct (_process_shape (put client_has) p obj (set_queue_pending rest s))
    as [E|(it' & s1 & E & ->)].
  - by injection E.
  - unfold put. rewrite put_from_f_deferred. by injection E.
Qed.

Lemma submitRequest_never_both p s :
  queue_pending s = [] ∨ queue_waiting s = [] →
  queue_pending (submitRequest client_has p s) = []
  ∨ queue_waiting (submitRequest client_has p s) = [].
Proof.
  intros H. unfold submitRequest. destruct (queue_pending s) as [|obj rest] eqn:Hq.
  { left. simpl. exact Hq. }
  destruct H as [?|Hw]; [done|].
  destruct (_process_shape (put client_has) p obj (set_queue_pending rest s))
    as [E|(it' & s1 & E & ->)].
  - right. injection E as _ E2 _. by rewrite E2.
  - injection E as _ E2 _. apply put_never_both. right. by rewrite E2.
Qed.

(** A property of the queue and of the factory's Deferred that [put],
    [submitRequest], [_callback] and [_errback] keep is kept by every
    input. *)
Section CoreKept.
Context (P : state → Prop).
Context (Hcore : ∀ s s', core s' = core s → P s → P s').
Context (Hput : ∀ obj s, P s → P (put client_has obj s)).
Context (Hsub : ∀ p s, P s → P (submitRequest client_has p s)).
Context (Hcb : ∀ v s, P s → P (_callback v s)).
Context (Heb : ∀ e s, P s → P (_errback e s)).

Lemma core_clientIdle p v s : P s → P (clientIdle client_has p v s).
Proof.
  intros Hs. unfold clientIdle. apply Hcb, Hsub.
  case_bool_decide; [done|]. by apply (Hcore s).
Qed.

Lemma core_call_finished p o s : P s → P (call_finished client_has p o s).
Proof.
  intros Hs. unfold call_finished. destruct (p_deferred _) as [c|]; [|done].
  unfold fire_call, _complete, bind, lift, ret.
  set (s1 := clientIdle client_has p (VBool true) _).
  assert (H1 : P s1) by by apply core_clientIdle, (Hcore s).
  destruct (call_pool_args c) as [[[req d] r]|]; [|done].
  destruct o as [v|e].
  - apply (Hcore s1); [|done]. apply core_settle.
  - unfold reqError. destruct (_ || _).
    + apply (Hcore s1); [|done]. apply core_settle.
    + unfold run_callback, lift. simpl. by apply Hput.
Qed.

Lemma core_clientGone_kept p s : P s → P (clientGone p s).
Proof.
  intros Hs. unfold clientGone. destruct (list_remove _ _); [|done].
  by apply (Hcore s).
Qed.

Lemma core_connectionMade p rp s : P s → P (connectionMade client_has VERSION p rp s).
Proof.
  intros Hs. unfold connectionMade. rewrite setupConnection_runs_steps.
  destruct (foldl_log_fields
              (fst (run_steps VERSION p rp (handshake_steps (proto_at s p)) (VBool true))) s)
    as (_ & _ & E1 & E2 & E3 & _).
  set (s1 := foldl _ s _) in *.
  assert (H1 : P s1). { apply (Hcore s); [|done]. unfold core. by rewrite E1, E2, E3. }
  destruct (snd _) as [v|e].
  - by apply core_clientIdle.
  - unfold run_callback, setupFailed, bind, lift, loseConnection, clientSetupFailed.
    destruct (p_transport _); simpl; [|done].
    apply Heb. by apply (Hcore s1).
Qed.

Lemma core_for_each_submit req ps s :
  core (snd (for_each ps (λ p, proto_submitRequest client_has p req) s)) = core s.
Proof.
  revert s. induction ps as [|p ps IH]; intros s; simpl; [done|].
  unfold bind. pose proof (core_submit p req s) as H1.
  destruct (proto_submitRequest client_has p req s) as [[[]|e] s1]; simpl in *; [|done].
  by rewrite IH.
Qed.

Lemma core_shutdown s : core (snd (shutdown s)) = core s.
Proof.
  destruct (shutdown_spec s) as (s' & E & _). rewrite E. simpl.
  revert E. rewrite shutdown_unfold. unfold stopTrying, bind, lift.
  assert (Hlose : ∀ ps s0, core (snd (for_each ps lose_if_any s0)) = core s0).
  { induction ps as [|p ps IH]; intros s0; simpl; [done|].
    unfold bind, lose_if_any, loseConnection, ret.
    destruct (bool_decide _); [|by rewrite IH].
    destruct (p_transport _); simpl; [|done]. by rewrite IH. }
  assert (Herr : ∀ err ds s0,
             core (snd (for_each ds (errback_unless_called err) s0)) = core s0).
  { intros err. induction ds as [|d ds IH]; intros s0; simpl; [done|].
    unfold bind, errback_unless_called, errback, fire, ret.
    destruct (negb _); [|by rewrite IH].
    destruct (handles s0 !! d); simpl; [done|]. by rewrite IH. }
  pose proof (Hlose (_protos (set_continueTrying false s)) (set_continueTrying false s)) as H1.
  destruct (for_each (_protos (set_continueTrying false s)) lose_if_any _)
    as [[[]|e] s1]; simpl in *; [|discriminate].
  intros E. pose proof (Herr (PExn (UserError "Shutdown requested")) (_pending s1) s1) as H2.
  rewrite E in H2. simpl in H2. by rewrite H2, H1.
Qed.

Lemma core_step i s : P s → P (step client_has VERSION i s).
Proof.
  intros Hs. destruct i; simpl.
  - apply core_connectionMade. by apply (Hcore s).
  - by apply Heb.
  - apply Hput. by apply (Hcore s).
  - by apply core_call_finished.
  - unfold connectionLost. apply core_clientGone_kept.
    destruct (negb _); [apply core_call_finished|]; by apply (Hcore s).
  - unfold set_keyspace, bind, lift. simpl.
    apply (Hcore s); [|done]. by rewrite core_for_each_submit.
  - unfold login. apply (Hcore s); [|done]. by rewrite core_for_each_submit.
  - apply (Hcore s); [|done]. apply core_shutdown.
Qed.

Lemma core_run inputs s : P s → P (run client_has VERSION inputs s).
Proof.
  revert s. induction inputs as [|i inputs IH]; intros s Hs; simpl; [done|].
  by apply IH, core_step.
Qed.

End CoreKept.

End Core.

(** X4: in every state a pool can reach, the queue never holds a request
    while a protocol waits for one: [self.queue.pending] or
    [self.queue.waiting] is empty.  A request is queued only when no
    protocol waits, and a protocol waits only when nothing is queued. *)
Theorem queue_holds_no_work_while_a_handler_waits
    (client_has : string → bool) (VERSION : string) (s : state) :
  reachable client_has VERSION s →
  queue_pending s = [] ∨ queue_waiting s = [].
Proof.
  induction 1 as [ks r cr chk|i s _ IH]; [by left|].
  revert IH.
  apply (core_step client_has VERSION (λ s, queue_pending s = [] ∨ queue_waiting s = [])).
  - intros s1 s2 E. injection E as -> -> _. done.
  - apply put_never_both.
  - apply submitRequest_never_both.
  - intros v s1. unfold _callback. by destruct (f_deferred s1).
  - intros e s1. unfold _errback. by destruct (f_deferred s1).
Qed.

Lemma queue_holds_no_work_while_a_handler_waits_witness :
  reachable sample_client "19.4.0" one_busy_one_queued
  ∧ (queue_pending one_busy_one_queued = [] ∨ queue_waiting one_busy_one_queued = []).
Proof.
  assert (H : reachable sample_client "19.4.0" one_busy_one_queued).
  { apply reachable_run, one_idle_reachable. }
  split; [exact H|].
  exact (queue_holds_no_work_while_a_handler_waits sample_client "19.4.0"
           one_busy_one_queued H).
Defined.

Lemma clientIdle_f_deferred client_has p v s :
  f_deferred (clientIdle client_has p v s)
  = match f_deferred s with
    | Unfired => FiredWith (Succ v)
    | fired => fired
    end.
Proof.
  unfold clientIdle, _callback.
  set (s1 := if bool_decide (p ∈ _protos s) then s else _).
  assert (E1 : f_deferred s1 = f_deferred s) by (unfold s1; by case_bool_decide).
  pose proof (submitRequest_f_deferred client_has p s1) as E2.
  rewrite <- E1, <- E2.
  destruct (f_deferred (submitRequest client_has p s1)) eqn:E3; simpl; by rewrite ?E3.
Qed.

(** X5: the factory's own Deferred ([self.deferred]) fires once.  While it
    has not fired, a failed connection attempt fires it with the reason,
    and a connection that is made fires it with the outcome of its
    handshake: the result of [setupConnection] on success, the failure
    otherwise.  Once it has fired, no input changes what it fired with. *)
Theorem readiness_fires_once (client_has : string → bool) (VERSION : string) (s : state) :
  (∀ o inputs, f_deferred s = FiredWith o →
               f_deferred (run client_has VERSION inputs s) = FiredWith o)
  ∧ (f_deferred s = Unfired →
     (∀ reason, f_deferred (step client_has VERSION (ConnectionFailed reason) s)
                = FiredWith (Fail reason))
     ∧ (∀ rp, f_deferred (step client_has VERSION (Connected rp) s)
              = FiredWith
                  (fst (setupConnection VERSION (next_proto s) rp
                          (update_proto (next_proto s) (with_transport (Some true))
                             (snd (buildProtocol s))))))).
Proof.
  split.
  - intros o inputs.
    apply (core_run client_has VERSION (λ s, f_deferred s = FiredWith o)).
    + intros s1 s2 E. injection E as _ _ ->. done.
    + intros obj s1. unfold put. by rewrite put_from_f_deferred.
    + intros p s1. by rewrite submitRequest_f_deferred.
    + intros v s1 H1. unfold _callback. by rewrite H1.
    + intros e s1 H1. unfold _errback. by rewrite H1.
  - intros Hun. split.
    + intros reason. simpl. unfold clientConnectionFailed, _errback. by rewrite Hun.
    + intros rp. cbn [step buildProtocol snd]. unfold makeConnection, connectionMade.
      set (p := next_proto s).
      set (s1 := update_proto p (with_transport (Some true)) _).
      pose proof (setupConnection_runs_steps VERSION p rp s1) as Hrun.
      destruct (foldl_log_fields
                  (fst (run_steps VERSION p rp (handshake_steps (proto_at s1 p)) (VBool true)))
                  s1) as (Hprotos & _ & Hfd & _).
      rewrite Hrun. cbn [fst snd]. set (s2 := foldl _ s1 _) in *.
      assert (Hun2 : f_deferred s2 = Unfired) by by rewrite Hfd.
      destruct (snd _) as [v|e].
      * by rewrite clientIdle_f_deferred, Hun2.
      * unfold run_callback, setupFailed, bind, lift, loseConnection, clientSetupFailed.
        assert (Ht : p_transport (proto_at s2 p) = Some true).
        { rewrite (proto_at_same_protos _ s1) by done.
          unfold s1. rewrite proto_at_update_eq. reflexivity. }
        rewrite Ht. cbn [snd]. unfold _errback.
        change (f_deferred (update_proto p (with_transport (Some false)) s2))
          with (f_deferred s2). by rewrite Hun2.
Qed.

Lemma readiness_fires_once_witness :
  f_deferred (new_factory None 0 [] false) = Unfired
  ∧ f_deferred (step sample_client "19.4.0" (ConnectionFailed TTransportException)
                  (new_factory None 0 [] false))
    = FiredWith (Fail TTransportException)
  ∧ f_deferred (run sample_client "19.4.0" [Connected answers_well; Shutdown]
                  (step sample_client "19.4.0" (ConnectionFailed TTransportException)
                     (new_factory None 0 [] false)))
    = FiredWith (Fail TTransportException).
Proof.
  split; [reflexivity|]. split.
  - exact (proj1 (proj2 (readiness_fires_once sample_client "19.4.0"
                           (new_factory None 0 [] false)) eq_refl) TTransportException).
  - exact (proj1 (readiness_fires_once sample_client "19.4.0"
                    (step sample_client "19.4.0" (ConnectionFailed TTransportException)
                       (new_factory None 0 [] false)))
             (Fail TTransportException) [Connected answers_well; Shutdown] eq_refl).
Defined.

(** ** Success, and the retry budget as the code counts it *)

Lemma list_remove_last x l : x ∉ l → list_remove x (l ++ [x]) = Ok l.
Proof.
  induction l as [|y l IH]; simpl; intros Hx.
  { by rewrite bool_decide_eq_true_2. }
  apply not_elem_of_cons in Hx as [Hne Hx].
  rewrite bool_decide_eq_false_2 by congruence. by rewrite IH.
Qed.

Section SuccessFacts.
Context (client_has : string → bool) (VERSION : string).

(** A success, whatever retries are left: the value goes to the caller and
    the protocol waits for work again. *)
Lemma success_in_flight s p req d r k v :
  in_flight client_has s p req d r k →
  let s' := call_finished client_has p (Succ v) s in
  handles s' !! d = Some (Succ v)
  ∧ attempts d s' = k
  ∧ list_remove d (_pending s) = Ok (_pending s')
  ∧ p ∈ _protos s' ∧ p_deferred (proto_at s' p) = None
  ∧ queue_pending s' = [] ∧ queue_waiting s' = [p]
  ∧ trace s' = (trace s ++ [EvFired d (Succ v)])%list.
Proof.
  intros Hf. pose proof (_complete_in_flight client_has s p req d r k (Succ v) Hf)
    as (Hin1 & Hslot1 & Hq1 & Hw1 & Hh1 & Hp1 & Ht1).
  destruct Hf as [Hm Hin Hslot Hq Hw Hd Hpe Hk]. simpl.
  unfold call_finished. rewrite Hslot. unfold fire_call. cbn [call_pool_args].
  change (_complete client_has p (Succ v) s)
    with (Ok (Succ v), snd (_complete client_has p (Succ v) s)).
  set (s1 := snd (_complete client_has p (Succ v) s)) in *. cbv iota beta.
  unfold run_callback, reqSuccess, bind, callback, fire, pending_remove.
  rewrite Hh1, Hd.
  destruct (list_remove_present d (_pending s) Hpe) as (l' & Hl' & _).
  cbn [_pending log set_handles]. rewrite Hp1, Hl'. cbn [snd].
  split; [simpl; by rewrite lookup_insert_eq|]. split; [|split; [done|]].
  - rewrite <- Hk. unfold attempts. simpl. rewrite Ht1.
    rewrite List.filter_app, length_app. simpl. lia.
  - split; [done|]. split; [done|]. split; [done|]. split; [done|].
    simpl. by rewrite Ht1.
Qed.

End SuccessFacts.

(** X6: when the remote call of a pushed request succeeds, whatever
    retries it has left, the value is delivered to the caller's Deferred,
    the Deferred is taken out of [_pending], no further attempt is made, and
    the handler, its slot empty, waits for work again. *)
Theorem success_delivers_and_frees_the_handler (client_has : string → bool)
    (s : state) (p : nat) (req : request) (d : nat) (r : Z) (k : nat) (v : value) :
  in_flight client_has s p req d r k →
  let s' := call_finished client_has p (Succ v) s in
  handles s' !! d = Some (Succ v)
  ∧ attempts d s' = k
  ∧ list_remove d (_pending s) = Ok (_pending s')
  ∧ p ∈ _protos s' ∧ p_deferred (proto_at s' p) = None
  ∧ queue_pending s' = [] ∧ queue_waiting s' = [p]
  ∧ trace s' = (trace s ++ [EvFired d (Succ v)])%list.
Proof. apply success_in_flight. Qed.

Lemma pushed_with_in_flight :
  in_flight sample_client (pushed_with 5) 0 get_request 0 4 1.
Proof.
  split; try reflexivity; apply (bool_decide_unpack _); vm_compute; exact I.
Defined.

Lemma success_delivers_and_frees_the_handler_witness :
  in_flight sample_client (pushed_with 5) 0 get_request 0 4 1
  ∧ handles (call_finished sample_client 0 (Succ (VStr "value")) (pushed_with 5)) !! 0%nat
    = Some (Succ (VStr "value")).
Proof.
  split; [exact pushed_with_in_flight|].
  exact (proj1 (success_delivers_and_frees_the_handler sample_client (pushed_with 5)
                  0 get_request 0 4 1 (VStr "value") pushed_with_in_flight)).
Defined.

(** X7: the retry budget as the code counts it.  A request pushed with
    [retries = N], N at least 1, onto a pool whose one registered idle
    protocol waits for work is submitted at once.  If its first [j]
    attempts fail and the next one succeeds, with [j] below N, the caller
    receives the value after [j + 1] attempts; if N attempts fail, the
    caller receives the last failure after exactly N attempts: the
    argument counts the attempts, not the retries. *)
Theorem retries_argument_counts_attempts (client_has : string → bool) (VERSION : string)
    (s : state) (p : nat) (req : request) (N : Z) (j : nat) (e : exn) (v : value) :
  client_has (method req) = true → (1 ≤ N)%Z →
  waits_alone s p →
  handles s !! next_handle s = None → attempts (next_handle s) s = 0%nat →
  let d := next_handle s in
  let failing := replicate (Z.to_nat N) (Finished p (Fail e)) in
  let failed := run client_has VERSION (Push req (Some N) :: failing) s in
  (handles failed !! d = Some (Fail e) ∧ attempts d failed = Z.to_nat N)
  ∧ ((Z.of_nat j < N)%Z →
     let served := run client_has VERSION
                     (Push req (Some N) :: replicate j (Finished p (Fail e))
                      ++ [Finished p (Succ v)]) s in
     handles served !! d = Some (Succ v) ∧ attempts d served = S j).
Proof.
  intros Hm HN [Hin Hslot Hq Hw] Hfresh H0. cbv zeta. split.
  { by apply (budget_of_N_is_N_attempts client_has VERSION p req N e s). }
  intros Hj.
  pose proof (push_to_idle_pool client_has p req N s Hm ltac:(lia) Hin Hslot Hq Hw Hfresh)
    as Hf.
  rewrite H0 in Hf.
  change (Push req (Some N) :: replicate j (Finished p (Fail e)) ++ [Finished p (Succ v)])
    with ([Push req (Some N)] ++ replicate j (Finished p (Fail e))
          ++ [Finished p (Succ v)])%list.
  rewrite !run_app.
  change (run client_has VERSION [Push req (Some N)] s)
    with (snd (pushRequest client_has req (Some N) s)).
  set (s1 := snd (pushRequest client_has req (Some N) s)) in *.
  pose proof (failures_while_retries_left client_has VERSION p req (next_handle s) e j
                (N - 1) 1 s1 Hf ltac:(lia)) as Hf'.
  set (s2 := run client_has VERSION _ s1) in *.
  change (run client_has VERSION [Finished p (Succ v)] s2)
    with (call_finished client_has p (Succ v) s2).
  destruct (success_in_flight client_has s2 p req (next_handle s) _ _ v Hf')
    as (H1 & H2 & _).
  split; [exact H1|]. rewrite H2. lia.
Qed.

Lemma one_idle_waits_alone : waits_alone one_idle 0.
Proof.
  split; try reflexivity. apply (bool_decide_unpack _). vm_compute. exact I.
Defined.

Lemma retries_argument_counts_attempts_witness :
  waits_alone one_idle 0
  ∧ handles (run sample_client "19.4.0"
               (Push get_request (Some 3)
                :: replicate 3 (Finished 0 (Fail TTransportException)))
               one_idle) !! 0%nat
    = Some (Fail TTransportException).
Proof.
  split; [exact one_idle_waits_alone|].
  exact (proj1 (proj1 (retries_argument_counts_attempts sample_client "19.4.0"
                         one_idle 0 get_request 3 0 TTransportException VNone
                         eq_refl ltac:(lia) one_idle_waits_alone eq_refl eq_refl))).
Defined.

(** ** A request for an operation the client does not have *)

Section UnknownMethod.
Context (client_has : string → bool).

(** [proto.submitRequest] raises in [_process]: the protocol is aborted
    and the errback runs at once on the Failure of [defer.fail()]. *)
Lemma _process_unknown_method put' p req d r b s :
  p ∈ _protos s → p_deferred (proto_at s p) = None →
  client_has (method req) = false → p_transport (proto_at s p) = Some b →
  _process client_has put' p (req, d, r) s
  = (Ok (), run_callback (reqError put' (PFailure InvalidThriftRequest) req d (r - 1))
              (update_proto p (λ o, with_transport (Some false) (with_aborted true o))
                 (log (EvAttempt p d) s))).
Proof.
  intros Hp Hslot Hm Ht. unfold _process.
  rewrite bool_decide_eq_true_2 by done. simpl.
  unfold bind, try_except, lift, ret.
  rewrite submit_invalid by done.
  unfold abort, bind, lift, loseConnection.
  rewrite proto_at_update_eq. cbn [p_transport with_aborted].
  change (proto_at (log (EvAttempt p d) s) p) with (proto_at s p). rewrite Ht.
  by rewrite update_proto_twice.
Qed.

End UnknownMethod.

(** X8: a request for an operation the client does not have, pushed
    while a registered idle protocol waits for work, costs that protocol
    its connection: [_process] aborts it (the aborted flag is set and the
    transport closed) and no remote operation is invoked.  With a budget of
    at most 1 the Deferred that [pushRequest] returns has already failed
    with [InvalidThriftRequest] and is out of [_pending]; with a larger
    budget the request is put back into the queue with the budget less one
    and its Deferred is still pending. *)
Theorem unknown_method_aborts_the_handler (client_has : string → bool)
    (s : state) (p : nat) (req : request) (retries : option Z) (b : bool) :
  client_has (method req) = false →
  waits_alone s p → p_transport (proto_at s p) = Some b →
  handles s !! next_handle s = None → next_handle s ∉ _pending s →
  let d := next_handle s in
  let budget := or_default retries (request_retries s) in
  let s' := snd (pushRequest client_has req retries s) in
  fst (pushRequest client_has req retries s) = d
  ∧ p_aborted (proto_at s' p) = true
  ∧ p_transport (proto_at s' p) = Some false
  ∧ p_deferred (proto_at s' p) = None
  ∧ queue_waiting s' = []
  ∧ (if bool_decide (budget ≤ 1)%Z
     then handles s' !! d = Some (Fail InvalidThriftRequest)
          ∧ _pending s' = _pending s
          ∧ queue_pending s' = []
          ∧ trace s' = (trace s ++ [EvAttempt p d; EvFired d (Fail InvalidThriftRequest)])%list
     else handles s' !! d = None
          ∧ _pending s' = (_pending s ++ [d])%list
          ∧ queue_pending s' = [(req, d, budget - 1)]
          ∧ trace s' = (trace s ++ [EvAttempt p d])%list).
Proof.
  intros Hm [Hin Hslot Hq Hw] Ht Hfresh Hnew d budget s'.
  split; [reflexivity|].
  set (s1 := update_proto p (λ o, with_transport (Some false) (with_aborted true o))
               (log (EvAttempt p d)
                  (set_queue_waiting []
                     (set__pending (_pending s ++ [d]) (set_next_handle (S d) s))))).
  assert (Hs' : s' = run_callback
                       (reqError (put client_has) (PFailure InvalidThriftRequest)
                          req d (budget - 1)) s1).
  { unfold s', pushRequest. cbn [snd]. rewrite put_unfold.
    cbn [queue_waiting set__pending set_next_handle]. rewrite Hw.
    unfold run_callback.
    by rewrite (_process_unknown_method client_has _ p req _ _ b). }
  assert (Hp1 : proto_at s1 p = with_transport (Some false) (with_aborted true (proto_at s p))).
  { unfold s1. by rewrite proto_at_update_eq. }
  rewrite reqError_on_failure in Hs'.
  destruct (bool_decide_reflect (budget ≤ 1)%Z) as [Hr|Hr].
  - rewrite bool_decide_eq_true_2 in Hs' by lia.
    assert (Hs'' : s' = set__pending (_pending s)
                          (log (EvFired d (Fail InvalidThriftRequest))
                             (set_handles (λ m, <[d := Fail InvalidThriftRequest]> m) s1))).
    { rewrite Hs'. unfold run_callback, bind, errback, fire, pending_remove.
      change (handles s1 !! d) with (handles s !! next_handle s). rewrite Hfresh.
      change (_pending (log _ (set_handles _ s1))) with (_pending s ++ [d])%list.
      by rewrite list_remove_last. }
    rewrite Hs''.
    change (proto_at (set__pending _ (log _ (set_handles _ s1))) p) with (proto_at s1 p).
    rewrite Hp1.
    split; [done|]. split; [done|]. split; [by rewrite <- Hslot|].
    split; [done|]. split; [simpl; by rewrite lookup_insert_eq|].
    split; [done|]. split; [simpl; by rewrite Hq|].
    simpl. by rewrite <- app_assoc.
  - rewrite bool_decide_eq_false_2 in Hs' by lia.
    assert (Hs'' : s' = set_queue_pending (queue_pending s ++ [(req, d, budget - 1)]) s1).
    { rewrite Hs'. unfold run_callback, lift. cbn [snd]. by rewrite put_no_waiter. }
    rewrite Hs''.
    change (proto_at (set_queue_pending _ s1) p) with (proto_at s1 p).
    rewrite Hp1.
    split; [done|]. split; [done|]. split; [by rewrite <- Hslot|].
    split; [done|]. split; [done|]. split; [done|].
    split; [simpl; by rewrite Hq|done].
Qed.

Lemma unknown_method_aborts_the_handler_witness :
  waits_alone one_idle 0
  ∧ p_aborted (proto_at (snd (pushRequest sample_client
                                (ManagedThriftRequest "no_such_call" []) None one_idle)) 0)
    = true.
Proof.
  split; [exact one_idle_waits_alone|].
  refine (proj1 (proj2 (unknown_method_aborts_the_handler sample_client one_idle 0
                          (ManagedThriftRequest "no_such_call" []) None true
                          eq_refl one_idle_waits_alone eq_refl eq_refl _))).
  apply not_elem_of_nil.
Defined.

(** ** The broadcasts [set_keyspace] and [login] *)

Section Broadcast.
Context (client_has : string → bool).

(** The loop over protocols that are all idle: each one gets the request,
    in the order of the list. *)
Lemma broadcast_all_idle req ps s :
  client_has (method req) = true → NoDup ps →
  (∀ q, q ∈ ps → p_deferred (proto_at s q) = None) →
  ∃ s', for_each ps (λ p, proto_submitRequest client_has p req) s = (Ok (), s')
        ∧ (∀ q, q ∈ ps → proto_at s' q = with_deferred (Some (Call req None)) (proto_at s q))
        ∧ (∀ q, q ∉ ps → proto_at s' q = proto_at s q)
        ∧ trace s' = (trace s ++ ((λ q, EvCall q (method req) (args req)) <$> ps))%list
        ∧ core s' = core s ∧ _protos s' = _protos s ∧ handles s' = handles s
        ∧ _pending s' = _pending s ∧ f_keyspace s' = f_keyspace s
        ∧ f_credentials s' = f_credentials s.
Proof.
  intros Hm. revert s. induction ps as [|p ps IH]; intros s Hnd Hidle.
  { exists s. split; [done|]. split; [by intros q ?%elem_of_nil|].
    split; [done|]. split; [by rewrite app_nil_r|done]. }
  apply NoDup_cons in Hnd as [Hp Hnd].
  set (s1 := update_proto p (with_deferred (Some (Call req None)))
               (log (EvCall p (method req) (args req)) s)).
  destruct (IH s1 Hnd) as (s' & E & Hin & Hout & Ht & Hc & A1 & A2 & A3 & A4 & A5).
  { intros q Hq. unfold s1. rewrite proto_at_update_ne by (intros ->; done).
    apply Hidle. by apply elem_of_cons; right. }
  exists s'. split.
  { simpl. unfold bind. rewrite submit_idle; [exact E| |done].
    apply Hidle. by apply elem_of_cons; left. }
  split; [|split; [|split]].
  - intros q [->|Hq]%elem_of_cons.
    + rewrite Hout by done. unfold s1. by rewrite proto_at_update_eq.
    + rewrite Hin by done. unfold s1. by rewrite proto_at_update_ne by (intros ->; done).
  - intros q [Hne Hq]%not_elem_of_cons. rewrite Hout by done.
    unfold s1. by rewrite proto_at_update_ne.
  - rewrite Ht. simpl. by rewrite <- app_assoc.
  - by rewrite Hc, A1, A2, A3, A4, A5.
Qed.

(** The loop stops at the first protocol that has a request in flight:
    [ClientBusy] leaves the loop, the protocols before it have been served,
    the others not. *)
Lemma broadcast_stops_at_busy req before p after c s :
  client_has (method req) = true → NoDup (before ++ p :: after) →
  (∀ q, q ∈ before → p_deferred (proto_at s q) = None) →
  p_deferred (proto_at s p) = Some c →
  ∃ s', for_each (before ++ p :: after) (λ p, proto_submitRequest client_has p req) s
        = (Raise ClientBusy, s')
        ∧ (∀ q, q ∈ before →
                proto_at s' q = with_deferred (Some (Call req None)) (proto_at s q))
        ∧ (∀ q, q ∉ before → proto_at s' q = proto_at s q)
        ∧ trace s' = (trace s ++ ((λ q, EvCall q (method req) (args req)) <$> before))%list
        ∧ core s' = core s ∧ _protos s' = _protos s ∧ handles s' = handles s
        ∧ _pending s' = _pending s ∧ f_keyspace s' = f_keyspace s
        ∧ f_credentials s' = f_credentials s.
Proof.
  intros Hm. revert s. induction before as [|q0 before IH]; intros s Hnd Hidle Hbusy.
  { exists s. split; [simpl; unfold bind; by rewrite (submit_busy _ _ _ c)|].
    split; [by intros q ?%elem_of_nil|]. split; [done|].
    split; [by rewrite app_nil_r|done]. }
  simpl in Hnd. apply NoDup_cons in Hnd as [Hq0 Hnd].
  assert (Hne : q0 ≠ p).
  { intros ->. apply Hq0, elem_of_app. right. by apply elem_of_cons; left. }
  set (s1 := update_proto q0 (with_deferred (Some (Call req None)))
               (log (EvCall q0 (method req) (args req)) s)).
  destruct (IH s1 Hnd) as (s' & E & Hin & Hout & Ht & Hc & A1 & A2 & A3 & A4 & A5).
  { intros q Hq. unfold s1. rewrite proto_at_update_ne.
    - apply Hidle. by apply elem_of_cons; right.
    - intros ->. apply Hq0, elem_of_app. by left. }
  { unfold s1. by rewrite proto_at_update_ne. }
  exists s'. split.
  { simpl. unfold bind. rewrite submit_idle; [exact E| |done].
    apply Hidle. by apply elem_of_cons; left. }
  split; [|split; [|split]].
  - intros q [->|Hq]%elem_of_cons.
    + rewrite Hout. { unfold s1. by rewrite proto_at_update_eq. }
      intros Hq. apply Hq0, elem_of_app. by left.
    + rewrite Hin by done. unfold s1. rewrite proto_at_update_ne; [done|].
      intros ->. apply Hq0, elem_of_app. by left.
  - intros q [Hne' Hq]%not_elem_of_cons. rewrite Hout by done.
    unfold s1. by rewrite proto_at_update_ne.
  - rewrite Ht. simpl. by rewrite <- app_assoc.
  - by rewrite Hc, A1, A2, A3, A4, A5.
Qed.

End Broadcast.

Lemma stable_f_keyspace k : stable (λ s, f_keyspace s = k).
Proof.
  split; try done. intros d o s Hs.
  unfold run_callback, bind, fire, pending_remove.
  destruct (handles s !! d); simpl; [done|].
  by destruct (list_remove d _).
Qed.

Lemma stable_f_credentials c : stable (λ s, f_credentials s = c).
Proof.
  split; try done. intros d o s Hs.
  unfold run_callback, bind, fire, pending_remove.
  destruct (handles s !! d); simpl; [done|].
  by destruct (list_remove d _).
Qed.

(** X9: [set_keyspace] records the keyspace in the factory before it
    submits anything, so whatever comes of the loop, a protocol built
    afterwards has the new keyspace.  When no registered protocol has a
    request in flight, each of them is sent the [set_keyspace] call, in the
    order of the member list, and nothing is raised.  When one of them has a
    request in flight, the loop is left with [ClientBusy] at the first such
    protocol: the protocols before it in the list have been sent the call,
    the busy one and those after it have not and are unchanged. *)
Theorem set_keyspace_is_a_partial_broadcast (client_has : string → bool)
    (s : state) (keyspace : string) :
  client_has "set_keyspace" = true → NoDup (_protos s) →
  let req := ManagedThriftRequest "set_keyspace" [VStr keyspace] in
  let sent := λ q, EvCall q "set_keyspace" [VStr keyspace] in
  (let s' := snd (set_keyspace client_has keyspace s) in
   f_keyspace s' = Some keyspace
   ∧ p_keyspace (proto_at (snd (buildProtocol s')) (fst (buildProtocol s'))) = Some keyspace)
  ∧ ((∀ q, q ∈ _protos s → p_deferred (proto_at s q) = None) →
     ∃ s', set_keyspace client_has keyspace s = (Ok (), s')
           ∧ (∀ q, q ∈ _protos s →
                   proto_at s' q = with_deferred (Some (Call req None)) (proto_at s q))
           ∧ trace s' = (trace s ++ (sent <$> _protos s))%list)
  ∧ (∀ before p after c,
       _protos s = (before ++ p :: after)%list →
       (∀ q, q ∈ before → p_deferred (proto_at s q) = None) →
       p_deferred (proto_at s p) = Some c →
       ∃ s', set_keyspace client_has keyspace s = (Raise ClientBusy, s')
             ∧ (∀ q, q ∈ before →
                     proto_at s' q = with_deferred (Some (Call req None)) (proto_at s q))
             ∧ (∀ q, q ∉ before → proto_at s' q = proto_at s q)
             ∧ trace s' = (trace s ++ (sent <$> before))%list).
Proof.
  intros Hm Hnd req sent.
  assert (Hks : f_keyspace (snd (set_keyspace client_has keyspace s)) = Some keyspace).
  { unfold set_keyspace, bind, lift.
    by apply (stable_for_each_submit client_has _ (stable_f_keyspace (Some keyspace))). }
  split; [|split].
  - split; [exact Hks|]. unfold buildProtocol. cbn [fst snd].
    unfold proto_at. simpl. rewrite lookup_insert_eq. simpl. exact Hks.
  - intros Hidle.
    destruct (broadcast_all_idle client_has req (_protos s)
                (set_f_keyspace (Some keyspace) s) Hm Hnd Hidle)
      as (s' & E & Hin & _ & Ht & _).
    exists s'. split; [exact E|]. split; [exact Hin|exact Ht].
  - intros before p after c Hps Hidle Hbusy.
    rewrite Hps in Hnd.
    destruct (broadcast_stops_at_busy client_has req before p after c
                (set_f_keyspace (Some keyspace) s) Hm Hnd Hidle Hbusy)
      as (s' & E & Hin & Hout & Ht & _).
    exists s'. split; [|by split].
    unfold set_keyspace, bind, lift.
    change (_protos (set_f_keyspace (Some keyspace) s)) with (_protos s).
    rewrite Hps. exact E.
Qed.

Lemma set_keyspace_is_a_partial_broadcast_witness :
  NoDup (_protos (pushed_with 5))
  ∧ f_keyspace (snd (set_keyspace sample_client "other" (pushed_with 5))) = Some "other"
  ∧ fst (set_keyspace sample_client "other" (pushed_with 5)) = Raise ClientBusy.
Proof.
  assert (Hnd : NoDup (_protos (pushed_with 5))).
  { change (_protos (pushed_with 5)) with [0%nat]. apply NoDup_singleton. }
  pose proof (set_keyspace_is_a_partial_broadcast sample_client (pushed_with 5) "other"
                eq_refl Hnd) as (H1 & _ & H3).
  split; [exact Hnd|]. split; [exact (proj1 H1)|].
  destruct (H3 [] 0%nat [] (Call get_request (Some (get_request, 0%nat, 4))) eq_refl)
    as (s' & E & _).
  - by intros q ?%elem_of_nil.
  - reflexivity.
  - by rewrite E.
Defined.

(** X10: [login] re-authenticates the connections that exist and nothing
    else: it does not touch the factory's credentials, so the class of a
    protocol built afterwards, and the credentials it logs in with, are
    those the factory was constructed with.  When no registered protocol
    has a request in flight each is sent the [login] call with the new
    credentials; at the first one that has, the loop is left with
    [ClientBusy] and the protocols from there on are unchanged. *)
Theorem login_leaves_factory_credentials (client_has : string → bool)
    (s : state) (credentials : list (string * string)) :
  client_has "login" = true → NoDup (_protos s) →
  let req := ManagedThriftRequest "login" [VDict credentials] in
  (let s' := snd (login client_has credentials s) in
   f_credentials s' = f_credentials s
   ∧ p_class (proto_at (snd (buildProtocol s')) (fst (buildProtocol s')))
     = match f_credentials s with
       | [] => Managed
       | original => Authenticated original
       end)
  ∧ ((∀ q, q ∈ _protos s → p_deferred (proto_at s q) = None) →
     ∃ s', login client_has credentials s = (Ok (), s')
           ∧ ∀ q, q ∈ _protos s →
                  proto_at s' q = with_deferred (Some (Call req None)) (proto_at s q))
  ∧ (∀ before p after c,
       _protos s = (before ++ p :: after)%list →
       (∀ q, q ∈ before → p_deferred (proto_at s q) = None) →
       p_deferred (proto_at s p) = Some c →
       ∃ s', login client_has credentials s = (Raise ClientBusy, s')
             ∧ (∀ q, q ∈ before →
                     proto_at s' q = with_deferred (Some (Call req None)) (proto_at s q))
             ∧ (∀ q, q ∉ before → proto_at s' q = proto_at s q)).
Proof.
  intros Hm Hnd req.
  assert (Hcr : f_credentials (snd (login client_has credentials s)) = f_credentials s).
  { unfold login.
    by apply (stable_for_each_submit client_has _ (stable_f_credentials (f_credentials s))). }
  split; [|split].
  - split; [exact Hcr|]. unfold buildProtocol. cbn [fst snd].
    unfold proto_at. simpl. rewrite lookup_insert_eq. simpl. by rewrite Hcr.
  - intros Hidle.
    destruct (broadcast_all_idle client_has req (_protos s) s Hm Hnd Hidle)
      as (s' & E & Hin & _).
    exists s'. by split.
  - intros before p after c Hps Hidle Hbusy.
    rewrite Hps in Hnd.
    destruct (broadcast_stops_at_busy client_has req before p after c s Hm Hnd Hidle Hbusy)
      as (s' & E & Hin & Hout & _).
    exists s'. split; [|by split]. unfold login. rewrite Hps. exact E.
Qed.

Lemma login_leaves_factory_credentials_witness :
  NoDup (_protos one_idle)
  ∧ f_credentials (snd (login sample_client [("user", "new")] one_idle)) = []
  ∧ fst (login sample_client [("user", "new")] one_idle) = Ok ().
Proof.
  assert (Hnd : NoDup (_protos one_idle)).
  { change (_protos one_idle) with [0%nat]. apply NoDup_singleton. }
  pose proof (login_leaves_factory_credentials sample_client one_idle [("user", "new")]
                eq_refl Hnd) as (H1 & H2 & _).
  split; [exact Hnd|]. split; [exact (proj1 H1)|].
  destruct H2 as (s' & E & _).
  - intros q ->%list_elem_of_singleton. reflexivity.
  - by rewrite E.
Defined.

(** ** What a broadcast does to the waiting list *)

Lemma stable_next_handle n : stable (λ s, next_handle s = n).
Proof.
  split; try done. intros d o s Hs.
  by destruct (settle_fields d o s) as (_ & -> & _).
Qed.

Lemma settle_other_handle d d1 o s :
  d ≠ d1 →
  handles (run_callback (fire d o ;; pending_remove d) s) !! d1 = handles s !! d1.
Proof.
  intros Hne. unfold run_callback, bind, fire, pending_remove.
  destruct (handles s !! d); simpl; [done|].
  destruct (list_remove d (_pending s)); simpl; by rewrite lookup_insert_ne.
Qed.

Lemma settle_attempts d d1 o s :
  attempts d1 (run_callback (fire d o ;; pending_remove d) s) = attempts d1 s.
Proof.
  unfold run_callback, bind, fire, pending_remove.
  destruct (handles s !! d); simpl; [done|].
  destruct (list_remove d (_pending s)); simpl;
    unfold attempts; simpl; rewrite List.filter_app, length_app; simpl; lia.
Qed.

Lemma with_deferred_same o : p_deferred o = None → with_deferred None o = o.
Proof. destruct o. simpl. by intros ->. Qed.

Section DoubleWaiter.
Context (client_has : string → bool) (VERSION : string).

(** [proto.submitRequest] raises [ClientBusy] in [_process]: the protocol
    is aborted, its request in flight stays where it is, and the errback
    runs at once. *)
Lemma _process_busy put' p req d r c b s :
  p ∈ _protos s → p_deferred (proto_at s p) = Some c →
  p_transport (proto_at s p) = Some b →
  _process client_has put' p (req, d, r) s
  = (Ok (), run_callback (reqError put' (PFailure ClientBusy) req d (r - 1))
              (update_proto p (λ o, with_transport (Some false) (with_aborted true o))
                 (log (EvAttempt p d) s))).
Proof.
  intros Hp Hslot Ht. unfold _process.
  rewrite bool_decide_eq_true_2 by done. simpl.
  unfold bind, try_except, lift, ret.
  rewrite (submit_busy _ _ _ c) by done.
  unfold abort, bind, lift, loseConnection.
  rewrite proto_at_update_eq. cbn [p_transport with_aborted].
  change (proto_at (log (EvAttempt p d) s) p) with (proto_at s p). rewrite Ht.
  by rewrite update_proto_twice.
Qed.

(** The answer to a broadcast call makes the protocol wait a second
    time. *)
Lemma broadcast_reply_waits_twice s p keyspace o :
  client_has "set_keyspace" = true → _protos s = [p] → waits_alone s p →
  let s2 := run client_has VERSION [SetKeyspaceAll keyspace; Finished p o] s in
  queue_waiting s2 = [p; p] ∧ queue_pending s2 = [] ∧ _protos s2 = [p]
  ∧ proto_at s2 p = proto_at s p ∧ handles s2 = handles s
  ∧ next_handle s2 = next_handle s.
Proof.
  intros Hm Hps [Hin Hslot Hq Hw]. cbv zeta. unfold run. cbn [foldl step].
  set (req := ManagedThriftRequest "set_keyspace" [VStr keyspace]).
  assert (Hnd : NoDup (_protos (set_f_keyspace (Some keyspace) s))).
  { simpl. rewrite Hps. apply NoDup_singleton. }
  destruct (broadcast_all_idle client_has req (_protos s)
              (set_f_keyspace (Some keyspace) s) Hm Hnd)
    as (s1 & E & Hp1 & _ & _ & Hc1 & Hps1 & Hh1 & _).
  { intros q Hq'. rewrite Hps in Hq'. apply list_elem_of_singleton in Hq' as ->. exact Hslot. }
  assert (Hn1 : next_handle s1 = next_handle s).
  { pose proof (stable_for_each_submit client_has _ (stable_next_handle (next_handle s)) req
                  (_protos s) (set_f_keyspace (Some keyspace) s) eq_refl) as H.
    by rewrite E in H. }
  assert (Es1 : snd (set_keyspace client_has keyspace s) = s1).
  { unfold set_keyspace, bind, lift.
    change (_protos (set_f_keyspace (Some keyspace) s)) with (_protos s).
    unfold req in E. by rewrite E. }
  rewrite Es1. injection Hc1 as Hq1 Hw1 _.
  change (queue_pending (set_f_keyspace (Some keyspace) s)) with (queue_pending s) in Hq1.
  change (queue_waiting (set_f_keyspace (Some keyspace) s)) with (queue_waiting s) in Hw1.
  change (_protos (set_f_keyspace (Some keyspace) s)) with (_protos s) in Hps1.
  change (handles (set_f_keyspace (Some keyspace) s)) with (handles s) in Hh1.
  specialize (Hp1 p Hin).
  change (proto_at (set_f_keyspace (Some keyspace) s) p) with (proto_at s p) in Hp1.
  unfold call_finished. rewrite Hp1. cbn [p_deferred with_deferred].
  unfold fire_call, _complete, bind, lift, ret. cbn [call_pool_args].
  set (emptied := update_proto p (with_deferred None) s1).
  destruct (clientIdle_empty_queue client_has p (VBool true) emptied)
    as (E1 & E2 & E3 & _ & E5 & _).
  { simpl. by rewrite Hq1, Hq. }
  split; [rewrite E2; simpl; by rewrite Hw1, Hw|]. split; [exact E3|].
  split.
  { rewrite clientIdle_registered. simpl. rewrite Hps1, Hps.
    by rewrite bool_decide_eq_true_2 by by apply list_elem_of_singleton. }
  split.
  { rewrite (proto_at_same_protos _ emptied p E1). unfold emptied.
    rewrite proto_at_update_eq, Hp1. destruct (proto_at s p). simpl in *. by subst. }
  split; [by rewrite E5|].
  transitivity (next_handle emptied); [|exact Hn1].
  unfold clientIdle.
  by apply (stable__callback _ (stable_next_handle (next_handle emptied))),
           (stable_submitRequest _ _ (stable_next_handle (next_handle emptied)));
    case_bool_decide.
Qed.

(** Two pushes onto a protocol that waits twice: the first is submitted
    to it, the second finds it busy and aborts it. *)
Lemma two_pushes_on_a_double_waiter t p req1 req2 (N1 N2 : Z) b :
  client_has (method req1) = true → N1 ≠ 0 → N2 ≠ 0 →
  p ∈ _protos t → p_deferred (proto_at t p) = None →
  p_transport (proto_at t p) = Some b →
  queue_pending t = [] → queue_waiting t = [p; p] →
  handles t !! next_handle t = None →
  let d1 := next_handle t in
  let t2 := run client_has VERSION [Push req1 (Some N1); Push req2 (Some N2)] t in
  proto_at t2 p
  = with_transport (Some false)
      (with_aborted true
         (with_deferred (Some (Call req1 (Some (req1, d1, N1 - 1)))) (proto_at t p)))
  ∧ handles t2 !! d1 = None
  ∧ _protos t2 = _protos t
  ∧ attempts d1 t2 = S (attempts d1 t)
  ∧ (∀ it, it ∈ queue_pending t2 → snd (fst it) = S d1).
Proof.
  intros Hm1 HN1 HN2 Hin Hslot Ht Hq Hw Hfresh d1 t2.
  set (t1 := snd (pushRequest client_has req1 (Some N1) t)).
  assert (Et1 : t1 = update_proto p
                       (with_deferred (Some (Call req1 (Some (req1, d1, N1 - 1)))))
                       (log (EvCall p (method req1) (args req1))
                          (log (EvAttempt p d1)
                             (set_queue_waiting [p]
                                (set__pending (_pending t ++ [d1])
                                   (set_next_handle (S d1) t)))))).
  { unfold t1, pushRequest. cbn [snd or_default].
    rewrite bool_decide_eq_false_2 by done. rewrite put_unfold.
    cbn [queue_waiting set__pending set_next_handle]. rewrite Hw.
    unfold run_callback. by rewrite _process_dispatch. }
  assert (Hp1 : proto_at t1 p
                = with_deferred (Some (Call req1 (Some (req1, d1, N1 - 1)))) (proto_at t p)).
  { rewrite Et1. by rewrite proto_at_update_eq. }
  set (d2 := next_handle t1).
  assert (Hd2 : d2 = S d1) by (unfold d2; by rewrite Et1).
  set (u := update_proto p (λ o, with_transport (Some false) (with_aborted true o))
              (log (EvAttempt p d2)
                 (set_queue_waiting []
                    (set__pending (_pending t1 ++ [d2]) (set_next_handle (S d2) t1))))).
  assert (Et2 : t2 = run_callback
                       (reqError (put client_has) (PFailure ClientBusy) req2 d2 (N2 - 1)) u).
  { unfold t2, run. cbn [foldl step]. fold t1. unfold pushRequest. cbn [snd or_default].
    rewrite bool_decide_eq_false_2 by done. rewrite put_unfold.
    cbn [queue_waiting set__pending set_next_handle].
    assert (queue_waiting t1 = [p]) as -> by by rewrite Et1.
    unfold run_callback.
    rewrite (_process_busy _ p req2 _ _ (Call req1 (Some (req1, d1, N1 - 1))) b); [done|..].
    - simpl. by rewrite Et1.
    - change (proto_at (set_queue_waiting [] _) p) with (proto_at t1 p). by rewrite Hp1.
    - change (proto_at (set_queue_waiting [] _) p) with (proto_at t1 p).
      rewrite Hp1. exact Ht. }
  assert (Hu_p : proto_at u p
                 = with_transport (Some false) (with_aborted true (proto_at t1 p))).
  { unfold u. by rewrite proto_at_update_eq. }
  assert (Hu_h : handles u = handles t) by (unfold u; simpl; by rewrite Et1).
  assert (Hu_m : _protos u = _protos t) by (unfold u; simpl; by rewrite Et1).
  assert (Hu_a : attempts d1 u = S (attempts d1 t)).
  { unfold attempts, u. simpl. rewrite Et1. simpl.
    rewrite !List.filter_app, !length_app. simpl.
    rewrite bool_decide_eq_true_2 by done.
    rewrite bool_decide_eq_false_2 by lia. simpl. lia. }
  assert (Hu_q : queue_pending u = []) by (unfold u; simpl; by rewrite Et1).
  rewrite reqError_on_failure in Et2. destruct (bool_decide (N2 - 1 < 1)).
  - destruct (settle_fields d2 (Fail ClientBusy) u) as (A1 & _ & A3 & _ & A5 & _).
    unfold errback in Et2. cbn [failure_value as_failure] in Et2.
    rewrite Et2. split; [|split; [|split; [|split]]].
    + rewrite (proto_at_same_protos _ u p A5). by rewrite Hu_p, Hp1.
    + rewrite settle_other_handle by lia. by rewrite Hu_h.
    + by rewrite A1.
    + by rewrite settle_attempts.
    + rewrite A3, Hu_q. by intros it ?%elem_of_nil.
  - assert (Et2' : t2 = set_queue_pending (queue_pending u ++ [(req2, d2, N2 - 1)]) u).
    { rewrite Et2. unfold run_callback, lift. cbn [snd]. by rewrite put_no_waiter. }
    rewrite Et2'. split; [|split; [|split; [|split]]].
    + change (proto_at (set_queue_pending _ u) p) with (proto_at u p).
      by rewrite Hu_p, Hp1.
    + change (handles (set_queue_pending _ u)) with (handles u). by rewrite Hu_h.
    + exact Hu_m.
    + exact Hu_a.
    + cbn [queue_pending set_queue_pending]. rewrite Hu_q.
      intros it ->%list_elem_of_singleton. exact Hd2.
Qed.

End DoubleWaiter.

(** X11: the answer to a broadcast call ([set_keyspace] on every
    connection) that was sent to a handler already waiting for work makes the
    handler wait a second time: [_complete] calls [clientIdle] again.  The
    first request pushed afterwards is submitted to the handler; the second
    is handed to the same, now busy, handler, whose [ClientBusy] makes
    [_process] abort it.  When the connection then goes, [connectionLost]
    skips the parent class for an aborted handler: the handler is
    unregistered with the first request still in its slot, the caller's
    Deferred of that request has not fired, and the request is not in the
    queue either. *)
Theorem broadcast_reply_strands_a_request (client_has : string → bool) (VERSION : string)
    (s : state) (p : nat) (keyspace : string) (o : outcome)
    (req1 req2 : request) (N1 N2 : Z) (b : bool) :
  client_has "set_keyspace" = true → client_has (method req1) = true →
  N1 ≠ 0 → N2 ≠ 0 →
  _protos s = [p] → waits_alone s p → p_transport (proto_at s p) = Some b →
  handles s !! next_handle s = None →
  let d1 := next_handle s in
  let s2 := run client_has VERSION [SetKeyspaceAll keyspace; Finished p o] s in
  let s5 := run client_has VERSION [Push req1 (Some N1); Push req2 (Some N2); Lost p] s2 in
  queue_waiting s2 = [p; p]
  ∧ p_deferred (proto_at s5 p) = Some (Call req1 (Some (req1, d1, N1 - 1)))
  ∧ p_aborted (proto_at s5 p) = true
  ∧ _protos s5 = []
  ∧ handles s5 !! d1 = None
  ∧ (∀ it, it ∈ queue_pending s5 → snd (fst it) ≠ d1).
Proof.
  intros Hks Hm1 HN1 HN2 Hps Hal Ht Hfresh d1 s2 s5.
  destruct (broadcast_reply_waits_twice client_has VERSION s p keyspace o Hks Hps Hal)
    as (Hw2 & Hq2 & Hps2 & Hp2 & Hh2 & Hn2).
  fold s2 in Hw2, Hq2, Hps2, Hp2, Hh2, Hn2.
  destruct Hal as [Hin Hslot Hq Hw].
  destruct (two_pushes_on_a_double_waiter client_has VERSION s2 p req1 req2 N1 N2 b)
    as (Hp4 & Hh4 & Hps4 & _ & Hq4); try done.
  { rewrite Hps2. by apply list_elem_of_singleton. }
  { by rewrite Hp2. }
  { by rewrite Hp2. }
  { by rewrite Hh2, Hn2. }
  rewrite Hn2, Hp2 in Hp4. rewrite Hn2 in Hh4, Hq4. rewrite Hps2 in Hps4.
  set (s4 := run client_has VERSION [Push req1 (Some N1); Push req2 (Some N2)] s2) in *.
  assert (E5 : s5 = set__protos [] (update_proto p (with_transport (Some false)) s4)).
  { unfold s5. change [Push req1 (Some N1); Push req2 (Some N2); Lost p]
      with ([Push req1 (Some N1); Push req2 (Some N2)] ++ [Lost p])%list.
    rewrite run_app. fold s4. unfold run. cbn [foldl step].
    unfold connectionLost. rewrite proto_at_update_eq, Hp4. cbn [p_aborted with_transport
      with_aborted negb]. unfold clientGone.
    change (_protos (update_proto p (with_transport (Some false)) s4)) with (_protos s4).
    rewrite Hps4. simpl. by rewrite bool_decide_eq_true_2. }
  split; [exact Hw2|]. rewrite E5.
  change (proto_at (set__protos [] (update_proto p (with_transport (Some false)) s4)) p)
    with (proto_at (update_proto p (with_transport (Some false)) s4) p).
  rewrite proto_at_update_eq, Hp4.
  split; [done|]. split; [done|]. split; [done|]. split; [exact Hh4|].
  intros it Hit. rewrite (Hq4 it Hit). unfold d1. lia.
Qed.

Lemma broadcast_reply_strands_a_request_witness :
  let s2 := run sample_client "19.4.0" [SetKeyspaceAll "other"; Finished 0 (Succ VNone)]
              one_idle in
  let s5 := run sample_client "19.4.0"
              [Push get_request (Some 3); Push get_request (Some 3); Lost 0] s2 in
  queue_waiting s2 = [0; 0]%nat ∧ _protos s5 = [] ∧ handles s5 !! 0%nat = None.
Proof.
  pose proof (broadcast_reply_strands_a_request sample_client "19.4.0" one_idle 0 "other"
                (Succ VNone) get_request get_request 3 3 true
                eq_refl eq_refl ltac:(lia) ltac:(lia) eq_refl one_idle_waits_alone
                eq_refl eq_refl) as (H1 & _ & _ & H4 & H5 & _).
  cbv zeta. split; [exact H1|]. split; [exact H4|exact H5].
Defined.

(** ** A handler lost while it waits *)

(** X12: when the connection of a handler that waits for work goes,
    [connectionLost] unregisters the handler but its [queue.get()] stays in
    the queue.  The next request pushed is handed to that waiter, which puts
    it back: it ends up in the queue as pushed, with its whole budget, no
    attempt is made, nothing fires and nobody waits any more. *)
Theorem lost_idle_handler_still_waits (client_has : string → bool) (VERSION : string)
    (s : state) (p : nat) (req : request) (retries : option Z) :
  waits_alone s p → NoDup (_protos s) →
  let s1 := step client_has VERSION (Lost p) s in
  let s2 := step client_has VERSION (Push req retries) s1 in
  ((p ∉ _protos s1) ∧ queue_waiting s1 = [p] ∧ queue_pending s1 = [])
  ∧ queue_waiting s2 = []
  ∧ queue_pending s2 = [(req, next_handle s, or_default retries (request_retries s))]
  ∧ _pending s2 = (_pending s ++ [next_handle s])%list
  ∧ trace s2 = trace s ∧ handles s2 = handles s.
Proof.
  intros [Hin Hslot Hq Hw] Hnd s1 s2.
  set (s0 := update_proto p (with_transport (Some false)) s).
  destruct (list_remove_present p (_protos s) Hin) as (l' & Hl' & _ & _ & _ & Hnd').
  destruct (Hnd' Hnd) as [_ Hout].
  assert (E1 : s1 = set__protos l' s0).
  { unfold s1. cbn [step]. fold s0. unfold connectionLost, call_finished.
    assert (Hslot0 : p_deferred (proto_at s0 p) = None).
    { unfold s0. by rewrite proto_at_update_eq. }
    rewrite Hslot0. destruct (negb _); unfold clientGone;
      change (_protos s0) with (_protos s); by rewrite Hl'. }
  assert (Hout1 : p ∉ _protos s1) by by rewrite E1.
  assert (Hw1 : queue_waiting s1 = [p]) by by rewrite E1.
  assert (Hq1 : queue_pending s1 = []) by by rewrite E1.
  split; [done|].
  unfold s2. cbn [step]. unfold pushRequest. cbn [snd].
  rewrite put_unfold. cbn [queue_waiting set__pending set_next_handle]. rewrite Hw1.
  unfold run_callback. rewrite _process_stale by done. cbn [snd].
  rewrite put_no_waiter by done.
  cbn [queue_waiting queue_pending set_queue_pending set_queue_waiting set__pending
       set_next_handle _pending trace handles request_retries next_handle].
  rewrite Hq1. by rewrite E1.
Qed.

Lemma lost_idle_handler_still_waits_witness :
  NoDup (_protos one_idle)
  ∧ queue_waiting (step sample_client "19.4.0" (Lost 0) one_idle) = [0%nat]
  ∧ queue_pending (step sample_client "19.4.0" (Push get_request (Some 2))
                     (step sample_client "19.4.0" (Lost 0) one_idle))
    = [(get_request, 0%nat, 2)].
Proof.
  assert (Hnd : NoDup (_protos one_idle)).
  { change (_protos one_idle) with [0%nat]. apply NoDup_singleton. }
  pose proof (lost_idle_handler_still_waits sample_client "19.4.0" one_idle 0 get_request
                (Some 2) one_idle_waits_alone Hnd) as ((_ & H1 & _) & _ & H2 & _).
  split; [exact Hnd|]. split; [exact H1|exact H2].
Defined.

(** ** The order of the queue *)

Section QueueOrder.
Context (client_has : string → bool) (VERSION : string).

(** Pushes while nobody waits only grow the queue, in the order of
    arrival. *)
Lemma pushes_queue_in_order pushes s :
  queue_waiting s = [] →
  let s' := run client_has VERSION (pushes_in pushes) s in
  queue_pending s'
  = (queue_pending s ++ queued (request_retries s) (next_handle s) pushes)%list
  ∧ _pending s' = (_pending s ++ seq (next_handle s) (length pushes))%list
  ∧ next_handle s' = (next_handle s + length pushes)%nat
  ∧ queue_waiting s' = []
  ∧ trace s' = trace s ∧ handles s' = handles s ∧ protos s' = protos s
  ∧ _protos s' = _protos s.
Proof.
  revert s. induction pushes as [|[req retries] pushes IH]; intros s Hw; cbv zeta.
  { unfold run. simpl. rewrite !app_nil_r. by rewrite Nat.add_0_r. }
  set (s1 := snd (pushRequest client_has req retries s)).
  change (run client_has VERSION (pushes_in ((req, retries) :: pushes)) s)
    with (run client_has VERSION (pushes_in pushes) s1).
  assert (E1 : s1 = set_queue_pending
                      (queue_pending s
                       ++ [(req, next_handle s, or_default retries (request_retries s))])
                      (set__pending (_pending s ++ [next_handle s])
                         (set_next_handle (S (next_handle s)) s))).
  { unfold s1, pushRequest. cbn [snd]. by rewrite put_no_waiter. }
  destruct (IH s1) as (A1 & A2 & A3 & A4 & A5 & A6 & A7 & A8); [by rewrite E1|].
  rewrite A1, A2, A3, A4, A5, A6, A7, A8, E1. simpl.
  rewrite <- !app_assoc. simpl. split; [done|]. split; [done|]. split; [lia|done].
Qed.

End QueueOrder.

(** X13: requests pushed while no handler waits are queued in the order
    they arrive, each with its own budget, and nothing is attempted.  The
    handler that reports idle next is handed the request pushed first, with
    one retry taken off for the attempt; the others stay queued in their
    order and are not attempted. *)
Theorem queue_is_first_in_first_out (client_has : string → bool) (VERSION : string)
    (s : state) (p : nat) (v : value) (req : request) (retries : option Z)
    (more : list (request * option Z)) :
  queue_waiting s = [] → queue_pending s = [] →
  p_deferred (proto_at s p) = None → client_has (method req) = true →
  let d := next_handle s in
  let s1 := run client_has VERSION (pushes_in ((req, retries) :: more)) s in
  let s2 := clientIdle client_has p v s1 in
  (queue_pending s1 = queued (request_retries s) d ((req, retries) :: more)
   ∧ trace s1 = trace s ∧ handles s1 = handles s)
  ∧ p_deferred (proto_at s2 p)
    = Some (Call req (Some (req, d, or_default retries (request_retries s) - 1)))
  ∧ queue_pending s2 = queued (request_retries s) (S d) more
  ∧ trace s2 = (trace s ++ [EvAttempt p d; EvCall p (method req) (args req)])%list
  ∧ handles s2 = handles s.
Proof.
  intros Hw Hq Hslot Hm d s1 s2.
  destruct (pushes_queue_in_order client_has VERSION ((req, retries) :: more) s Hw)
    as (A1 & _ & _ & _ & A5 & A6 & A7 & _).
  fold s1 in A1, A5, A6, A7. rewrite Hq in A1. cbn [app] in A1.
  split; [done|].
  destruct (clientIdle_dispatch client_has p v req d
              (or_default retries (request_retries s)) (queued (request_retries s) (S d) more)
              s1) as (B1 & B2 & _ & B4 & B5 & _); [exact A1| |exact Hm|].
  { by rewrite (proto_at_same_protos _ s p A7). }
  fold s2 in B1, B2, B4, B5.
  rewrite B1, B2, B4, B5, A5, A6. done.
Qed.

Lemma queue_is_first_in_first_out_witness :
  let s1 := run sample_client "19.4.0"
              (pushes_in [(get_request, Some 2); (ManagedThriftRequest "remove" [], None)])
              (new_factory None 3 [] false) in
  queue_pending s1
  = [(get_request, 0%nat, 2); (ManagedThriftRequest "remove" [], 1%nat, 3)]
  ∧ queue_pending (clientIdle sample_client 7 (VBool true) s1)
    = [(ManagedThriftRequest "remove" [], 1%nat, 3)].
Proof.
  pose proof (queue_is_first_in_first_out sample_client "19.4.0"
                (new_factory None 3 [] false) 7 (VBool true) get_request (Some 2)
                [(ManagedThriftRequest "remove" [], None)]
                eq_refl eq_refl eq_refl eq_refl) as ((H1 & _) & _ & H3 & _).
  cbv zeta. split; [exact H1|exact H3].
Defined.

(** ** Requests in flight at shutdown *)

Section AfterShutdown.
Context (client_has : string → bool).

Lemma lose_if_any_keeps_calls p s q :
  let s' := snd (lose_if_any p s) in
  p_deferred (proto_at s' q) = p_deferred (proto_at s q) ∧ trace s' = trace s.
Proof.
  unfold lose_if_any, loseConnection, ret.
  destruct (bool_decide _); [|done].
  destruct (p_transport (proto_at s p)); [|done]. cbn [snd]. split; [|done].
  destruct (decide (q = p)) as [->|Hne].
  - by rewrite proto_at_update_eq.
  - by rewrite proto_at_update_ne.
Qed.

Lemma lose_loop_keeps_calls ps s q :
  let s' := snd (for_each ps lose_if_any s) in
  p_deferred (proto_at s' q) = p_deferred (proto_at s q) ∧ trace s' = trace s.
Proof.
  revert s. induction ps as [|p ps IH]; intros s; [done|].
  cbn [for_each]. unfold bind.
  pose proof (lose_if_any_keeps_calls p s q) as [A1 A2].
  destruct (lose_if_any p s) as [[[]|e] s1]; cbn [snd] in *; [|done].
  destruct (IH s1) as [B1 B2]. by rewrite B1, B2, A1, A2.
Qed.

Lemma errback_loop_keeps_attempts err ds d s :
  attempts d (snd (for_each ds (errback_unless_called err) s)) = attempts d s.
Proof.
  revert s. induction ds as [|d' ds IH]; intros s; [done|].
  cbn [for_each]. unfold bind, errback_unless_called, errback, fire, ret.
  destruct (negb _); [|apply IH].
  destruct (handles s !! d'); [done|]. rewrite IH. by rewrite attempts_log.
Qed.

Lemma shutdown_keeps_calls s q d :
  let s' := snd (shutdown s) in
  p_deferred (proto_at s' q) = p_deferred (proto_at s q) ∧ attempts d s' = attempts d s.
Proof.
  cbv zeta. rewrite shutdown_unfold. unfold stopTrying, bind, lift.
  destruct (for_each_lose_spec (_protos (set_continueTrying false s))
              (set_continueTrying false s)) as (s1 & E1 & _).
  destruct (lose_loop_keeps_calls (_protos (set_continueTrying false s))
              (set_continueTrying false s) q) as [A1 A2].
  rewrite E1 in *. cbn [snd] in A1, A2.
  destruct (for_each_errback_spec (PExn (UserError "Shutdown requested")) (_pending s1) s1)
    as (s2 & E2 & _ & B1 & _).
  pose proof (errback_loop_keeps_attempts (PExn (UserError "Shutdown requested"))
                (_pending s1) d s1) as B2.
  rewrite E2 in *. cbn [snd] in B2 |- *.
  rewrite (proto_at_same_protos _ s1 q B1), A1, B2. split; [done|].
  unfold attempts. by rewrite A2.
Qed.

(** The remote call of a pushed request finishes when the caller's
    Deferred has fired already: the callbacks of the pool raise
    [AlreadyCalledError] before they reach [_pending.remove]. *)
Lemma late_result s p req d r o o' :
  p ∈ _protos s → p_deferred (proto_at s p) = Some (Call req (Some (req, d, r))) →
  queue_pending s = [] → queue_waiting s = [] →
  handles s !! d = Some o' → client_has (method req) = true →
  let s' := call_finished client_has p o s in
  handles s' = handles s ∧ _pending s' = _pending s
  ∧ match o with
    | Fail _ =>
        if bool_decide (r < 1)%Z
        then p_deferred (proto_at s' p) = None ∧ trace s' = trace s
        else p_deferred (proto_at s' p) = Some (Call req (Some (req, d, r - 1)))
             ∧ trace s' = (trace s ++ [EvAttempt p d; EvCall p (method req) (args req)])%list
    | Succ _ => p_deferred (proto_at s' p) = None ∧ trace s' = trace s
    end.
Proof.
  intros Hin Hslot Hq Hw Hd Hm. cbv zeta.
  unfold call_finished. rewrite Hslot. unfold fire_call. cbn [call_pool_args].
  change (_complete client_has p o s) with (Ok o, snd (_complete client_has p o s)).
  set (s1 := snd (_complete client_has p o s)). cbv iota beta.
  destruct (clientIdle_empty_queue client_has p (VBool true)
              (update_proto p (with_deferred None) s) Hq)
    as (E1 & E2 & E3 & E4 & E5 & E6).
  change (clientIdle client_has p (VBool true) (update_proto p (with_deferred None) s))
    with s1 in E1, E2, E3, E4, E5, E6.
  change (queue_waiting (update_proto p (with_deferred None) s))
    with (queue_waiting s) in E2.
  rewrite Hw in E2. cbn [app] in E2.
  change (trace (update_proto p (with_deferred None) s)) with (trace s) in E4.
  change (handles (update_proto p (with_deferred None) s)) with (handles s) in E5.
  change (_pending (update_proto p (with_deferred None) s)) with (_pending s) in E6.
  assert (Hin1 : p ∈ _protos s1).
  { unfold s1, _complete, bind, lift, ret. cbn [snd].
    rewrite clientIdle_registered. simpl. by rewrite bool_decide_eq_true_2. }
  assert (Hslot1 : p_deferred (proto_at s1 p) = None).
  { rewrite (proto_at_same_protos _ _ p E1). by rewrite proto_at_update_eq. }
  assert (Hraise : ∀ x, run_callback (fire d x ;; pending_remove d) s1 = s1).
  { intros x. unfold run_callback, bind, fire. by rewrite E5, Hd. }
  destruct o as [v|e].
  - unfold reqSuccess, callback. rewrite Hraise. by rewrite E4, E5, E6, Hslot1.
  - rewrite reqError_on_failure. case_bool_decide as Hr.
    + unfold errback. rewrite Hraise. by rewrite E4, E5, E6, Hslot1.
    + unfold run_callback, lift. cbn [snd]. rewrite put_unfold, E2.
      unfold run_callback. rewrite _process_dispatch; [|done|done|done].
      cbn [snd]. rewrite proto_at_update_eq.
      split; [exact E5|]. split; [exact E6|]. split; [done|].
      change (trace (update_proto p ?f (log ?e2 (log ?e1 (set_queue_waiting ?w s1)))))
        with ((trace s1 ++ [e1]) ++ [e2])%list.
      rewrite E4. by rewrite <- app_assoc.
Qed.

End AfterShutdown.

(** X14: [shutdown] fails the caller's Deferred of a request that is in
    flight but leaves the request with its handler and the Deferred in
    [_pending].  When the remote call finishes afterwards, its result is
    dropped: no Deferred changes, and the Deferred stays in [_pending], since
    the callbacks of the pool raise before they remove it.  A failure with
    retries left is still retried: the request is submitted to the handler
    once more. *)
Theorem shutdown_leaves_requests_in_flight (client_has : string → bool)
    (s : state) (p : nat) (req : request) (d : nat) (r : Z) (k : nat) :
  in_flight client_has s p req d r k →
  let s1 := snd (shutdown s) in
  (handles s1 !! d = Some (Fail (UserError "Shutdown requested"))
   ∧ p_deferred (proto_at s1 p) = Some (Call req (Some (req, d, r)))
   ∧ d ∈ _pending s1 ∧ attempts d s1 = k)
  ∧ (∀ o, let s2 := call_finished client_has p o s1 in
          handles s2 = handles s1 ∧ d ∈ _pending s2)
  ∧ (∀ v, attempts d (call_finished client_has p (Succ v) s1) = k)
  ∧ (∀ e, let s2 := call_finished client_has p (Fail e) s1 in
          if bool_decide (r < 1)%Z then attempts d s2 = k
          else attempts d s2 = S k
               ∧ p_deferred (proto_at s2 p) = Some (Call req (Some (req, d, r - 1)))).
Proof.
  intros [Hm Hin Hslot Hq Hw Hd Hpe Hk] s1.
  destruct (shutdown_spec s) as (s' & E & _ & _ & Hh & Hreg & Hpend & _).
  destruct (shutdown_keeps_calls s p d) as [Hslot1 Hk1].
  pose proof (core_shutdown s) as Hcore.
  fold s1 in Hslot1, Hk1, Hcore. assert (s' = s1) as -> by (unfold s1; by rewrite E).
  injection Hcore as Hq1 Hw1 _.
  assert (Hd1 : handles s1 !! d = Some (Fail (UserError "Shutdown requested"))).
  { rewrite Hh, Hd. by rewrite bool_decide_eq_true_2. }
  assert (Hlate := λ o, late_result client_has s1 p req d r o _
                          ltac:(by rewrite Hreg) ltac:(by rewrite Hslot1)
                          ltac:(by rewrite Hq1) ltac:(by rewrite Hw1) Hd1 Hm).
  split; [|split; [|split]].
  - split; [exact Hd1|]. split; [by rewrite Hslot1|]. split; [by rewrite Hpend|].
    by rewrite Hk1.
  - intros o. destruct (Hlate o) as (A1 & A2 & _). cbv zeta.
    rewrite A1, A2, Hpend. done.
  - intros v. destruct (Hlate (Succ v)) as (_ & _ & _ & A4).
    unfold attempts in *. by rewrite A4, Hk1.
  - intros e. cbv zeta. destruct (Hlate (Fail e)) as (_ & _ & A3).
    destruct (bool_decide (r < 1)%Z).
    + destruct A3 as [_ A4]. unfold attempts in *. by rewrite A4, Hk1.
    + destruct A3 as [A3 A4]. split; [|exact A3].
      unfold attempts in *. rewrite A4, List.filter_app, length_app. simpl.
      rewrite bool_decide_eq_true_2 by done. simpl. lia.
Qed.

Lemma shutdown_leaves_requests_in_flight_witness :
  in_flight sample_client (pushed_with 5) 0 get_request 0 4 1
  ∧ handles (snd (shutdown (pushed_with 5))) !! 0%nat
    = Some (Fail (UserError "Shutdown requested"))
  ∧ attempts 0 (call_finished sample_client 0 (Fail TTransportException)
                  (snd (shutdown (pushed_with 5)))) = 2%nat.
Proof.
  pose proof (shutdown_leaves_requests_in_flight sample_client (pushed_with 5) 0
                get_request 0 4 1 pushed_with_in_flight) as ((H1 & _) & _ & _ & H4).
  split; [exact pushed_with_in_flight|]. split; [exact H1|].
  exact (proj1 (H4 TTransportException)).
Defined.
